(** * enviper: environment overlay for a viper configuration store

    A shallow embedding of [enviper.go]: the reflective walk [bindEnvs],
    the cast policy [supportedCast], the decode hook [SliceDecodeHook] and
    the orchestration in [Unmarshal].  The process environment and the
    viper store are explicit state; [reflect] values are a small tree of
    Go values with what the walk inspects: kinds, struct fields and tags,
    map keys, nil pointers. *)

From Stdlib Require Import String Ascii List Bool Arith Lia.
Import ListNotations.
Local Open Scope list_scope.
Local Open Scope string_scope.
Set Warnings "-register-all".

(** ** Strings: the parts of package [strings] the code uses *)

Module Strings.

Fixpoint map_string (f : ascii -> ascii) (s : string) : string :=
  match s with
  | EmptyString => EmptyString
  | String c r => String (f c) (map_string f r)
  end.

(** ASCII upper-casing of one byte (['a'..'z'] to ['A'..'Z']). *)
Definition upper_ascii (c : ascii) : ascii :=
  let n := nat_of_ascii c in
  if ((97 <=? n) && (n <=? 122))%nat then ascii_of_nat (n - 32)%nat else c.

(** [strings.ToUpper], on ASCII text: the bytes [a] to [z] are mapped, any
    other byte is kept (the letters of other scripts, which the library
    maps too, are not). *)
Definition ToUpper (s : string) : string := map_string upper_ascii s.

(** [strings.NewReplacer(old, new).Replace] for one-byte [old] and [new]. *)
Definition replace_ascii (old new c : ascii) : ascii :=
  if Ascii.eqb c old then new else c.

Definition Replace (old new : ascii) (s : string) : string :=
  map_string (replace_ascii old new) s.

(** [strings.Join]. *)
Definition Join (l : list string) (sep : string) : string := String.concat sep l.

(** [strings.HasPrefix s p]. *)
Definition HasPrefix (s p : string) : bool := String.prefix p s.

(** [strings.Index s c] for a one-byte separator: position of the first [c]. *)
Fixpoint Index (s : string) (c : ascii) : option nat :=
  match s with
  | EmptyString => None
  | String a r =>
      if Ascii.eqb a c then Some 0%nat
      else match Index r c with Some n => Some (S n) | None => None end
  end.

(** [s[:n]] and [s[n:]]. *)
Fixpoint take (n : nat) (s : string) : string :=
  match n, s with
  | 0%nat, _ => EmptyString
  | S k, String a r => String a (take k r)
  | S _, EmptyString => EmptyString
  end.

Fixpoint drop (n : nat) (s : string) : string :=
  match n, s with
  | 0%nat, _ => s
  | S k, String _ r => drop k r
  | S _, EmptyString => EmptyString
  end.

(** [strings.Contains s sub]. *)
Fixpoint Contains (s sub : string) : bool :=
  String.prefix sub s ||
  match s with
  | EmptyString => false
  | String _ r => Contains r sub
  end.

(** [strings.Split(s, "=")[0]]: the text before the first ["="], or all of
    [s] when there is none. *)
Fixpoint before_eq (s : string) : string :=
  match s with
  | EmptyString => EmptyString
  | String a r => if Ascii.eqb a "="%char then EmptyString else String a (before_eq r)
  end.

(** ASCII white space, as [strings.Fields] splits on it. *)
Definition is_space (c : ascii) : bool :=
  let n := nat_of_ascii c in
  ((n =? 32) || ((9 <=? n) && (n <=? 13)))%nat.

(** [strings.Fields]: the maximal runs of non-space bytes.  [cur] is the
    field being read, in reverse. *)
Fixpoint fields_from (cur : option string) (s : string) : list string :=
  match s with
  | EmptyString => match cur with Some f => [f] | None => [] end
  | String c r =>
      if is_space c
      then match cur with Some f => f :: fields_from None r | None => fields_from None r end
      else fields_from (Some (match cur with Some f => f ++ String c EmptyString
                                         | None => String c EmptyString end)) r
  end.

Definition Fields (s : string) : list string := fields_from None s.

(** No byte of [s] is [c]. *)
Fixpoint free_of (c : ascii) (s : string) : bool :=
  match s with
  | EmptyString => true
  | String a r => negb (Ascii.eqb a c) && free_of c r
  end.

End Strings.

(** ** Go types and values, as [reflect] shows them to the walk *)

(** The non-composite types [supportedCast] names, and one constructor for
    every other non-composite type (uint8, uint16, complex128, chan, func ...). *)
Inductive basic : Type :=
| Bool | String_ | Int | Int8 | Int16 | Int32 | Int64
| Uint | Uint32 | Uint64 | Float32 | Float64 | Duration
| OtherBasic (name : string).

(** A struct tag: the [key:"value"] pairs of the field's tag string. *)
Definition StructTag : Type := list (string * string).

(** Types are finite trees.  A type that contains itself (a struct with a
    pointer to its own type) cannot be written: on such a type, with the
    pointer empty, lines 114-116 descend without end.  Defined types are
    not told from their underlying type: a defined slice type, which the
    type switch of [supportedCast] does not match, cannot be written
    either. *)
Inductive gotype : Type :=
| TBasic (b : basic)
| TTime                                   (* time.Time *)
| TStruct (fields : list (string * StructTag * bool * gotype))
                                          (* name, tag, exported, type *)
| TMap (key : gotype) (elem : gotype)
| TSlice (elem : gotype)
| TPtr (elem : gotype)
| TInterface.

(** A map key: only a key whose dynamic type is exactly [string] passes the
    type assertion [iter.Key().Interface().(string)]. *)
Inductive mapkey : Type :=
| KString (s : string)
| KOther.

Inductive value : Type :=
| VBasic (b : basic) (lit : string)       (* the value, as text *)
| VTime
| VStruct (fields : list (string * StructTag * bool * value))
| VMap (key elem : gotype) (entries : list (mapkey * value))
| VSlice (elem : gotype) (items : list value)
| VPtr (elem : gotype) (target : option value)   (* None: nil pointer *)
| VInterface (dyn : option value).               (* None: nil interface *)

Definition zeroLit (b : basic) : string :=
  match b with
  | Bool => "false"
  | String_ | OtherBasic _ => ""
  | Duration => "0s"
  | _ => "0"
  end.

(** [reflect.New(t).Elem()]: the zero value of a type. *)
Fixpoint zero (t : gotype) : value :=
  match t with
  | TBasic b => VBasic b (zeroLit b)
  | TTime => VTime
  | TStruct fs =>
      VStruct (List.map (fun f : string * StructTag * bool * gotype =>
                           let '(n, tg, ex, ft) := f in (n, tg, ex, zero ft)) fs)
  | TMap k e => VMap k e []
  | TSlice e => VSlice e []
  | TPtr e => VPtr e None
  | TInterface => VInterface None
  end.

(** The dynamic type of a value, where it has one. *)
Fixpoint type_of (v : value) : gotype :=
  match v with
  | VBasic b _ => TBasic b
  | VTime => TTime
  | VStruct fs =>
      TStruct (List.map (fun f : string * StructTag * bool * value =>
                           let '(n, tg, ex, fv) := f in (n, tg, ex, type_of fv)) fs)
  | VMap k e _ => TMap k e
  | VSlice e _ => TSlice e
  | VPtr e _ => TPtr e
  | VInterface _ => TInterface
  end.

(** ** Cast policy *)

(** [supportedCast], lines 217-251: a type switch on the dynamic type of
    [in].  The first component of the Go result is [in] itself in every
    branch, so only the flag is computed here. *)
Definition supportedCast (v : value) : bool :=
  match v with
  | VBasic Bool _ => true
  | VBasic String_ _ => true
  | VBasic Int32 _ | VBasic Int16 _ | VBasic Int8 _ | VBasic Int _ => true
  | VBasic Uint _ => true
  | VBasic Uint32 _ => true
  | VBasic Uint64 _ => true
  | VBasic Int64 _ => true
  | VBasic Float64 _ | VBasic Float32 _ => true
  | VTime => true
  | VBasic Duration _ => true
  | VSlice (TBasic String_) _ => true
  | VSlice (TBasic Int) _ => true
  | _ => false
  end.

(** ** The process environment (package [os]) *)

Module Os.

(** The environment block, in the order [os.Environ] enumerates it. *)
Definition environ : Type := list (string * string).

(** [os.Environ]: the entries as ["NAME=value"] strings. *)
Definition Environ (e : environ) : list string :=
  List.map (fun kv : string * string => fst kv ++ "=" ++ snd kv) e.

(** [os.LookupEnv]. *)
Fixpoint LookupEnv (e : environ) (k : string) : option string :=
  match e with
  | [] => None
  | (n, v) :: r => if String.eqb n k then Some v else LookupEnv r k
  end.

(** [os.Getenv]: the empty string when the variable is unset. *)
Definition Getenv (e : environ) (k : string) : string :=
  match LookupEnv e k with Some v => v | None => "" end.

Fixpoint set (e : environ) (k v : string) : environ :=
  match e with
  | [] => [(k, v)]
  | (n, x) :: r => if String.eqb n k then (n, v) :: r else (n, x) :: set r k v
  end.

(** [os.Setenv]: an existing entry is replaced in place, a new one is
    appended; an empty name or one holding ["="] is refused (the code drops
    the error). *)
Definition Setenv (e : environ) (k v : string) : environ :=
  if String.eqb k "" || negb (Strings.free_of "="%char k) then e else set e k v.

End Os.

(** ** Structured text (package [encoding/json]) *)

(** What [json.Unmarshal] yields in an [interface{}]. *)
Inductive data : Type :=
| JNull
| JBool (b : bool)
| JNumber (lit : string)          (* the number, as its JSON text *)
| JString (s : string)
| JArray (items : list data)
| JObject (members : list (string * data)).

Module Json.

(** The double quote. *)
Definition dquote : ascii := ascii_of_nat 34.

Definition escape_ascii (c : ascii) : string :=
  if Ascii.eqb c dquote then String "\"%char (String c EmptyString)
  else if Ascii.eqb c "\"%char then String c (String c EmptyString)
  else String c EmptyString.

Fixpoint escape (s : string) : string :=
  match s with
  | EmptyString => EmptyString
  | String c r => escape_ascii c ++ escape r
  end.

Definition quote (s : string) : string :=
  String dquote (escape s ++ String dquote EmptyString).

(** [json.Marshal] of one value: compact output, [\] and the double quote
    escaped (the escapes of control bytes and of [<], [>], [&] are left
    out), a number written as the text it was read from (the code takes it
    through a [float64]). *)
Fixpoint marshal (d : data) : string :=
  match d with
  | JNull => "null"
  | JBool true => "true"
  | JBool false => "false"
  | JNumber lit => lit
  | JString s => quote s
  | JArray items => "[" ++ String.concat "," (List.map marshal items) ++ "]"
  | JObject ms =>
      "{" ++ String.concat ","
               (List.map (fun m : string * data => quote (fst m) ++ ":" ++ marshal (snd m)) ms)
          ++ "}"
  end.

(** [json.Marshal(decodedValues)] for the [[]interface{}] the code builds. *)
Definition Marshal (items : list data) : string := marshal (JArray items).

End Json.

(** ** The configuration store (package [viper]) *)

(** The store is an external library and no part of the sources at hand.
    What follows is the contract the code relies on, as the specification
    states it: defaults and lazy bindings by dotted key, a base source, a
    separator substitution and a prefix applied to every environment name,
    and a read that prefers a bound environment variable that is set over
    the base source, and the base source over a default.  Keys are compared
    as they are written. *)

Inductive error : Type :=
| ConfigFileNotFoundError
| ConfigError (msg : string)          (* any other failure of the load *)
| DecodeError (msg : string).         (* a failure of the structure decoder *)

(** The base source as [ReadInConfig] finds it. *)
Inductive source : Type :=
| SourceOk (settings : list (string * data))
| SourceAbsent
| SourceBroken (msg : string).

Record Viper : Type := {
  configSource : source;
  config : list (string * data);       (* loaded settings, by dotted key *)
  defaults : list (string * value);
  env : list (string * string);        (* bound key, environment name *)
  envPrefix : string;
  envKeyReplacer : option (ascii * ascii)
}.

Fixpoint assoc {A : Type} (l : list (string * A)) (k : string) : option A :=
  match l with
  | [] => None
  | (n, a) :: r => if String.eqb n k then Some a else assoc r k
  end.

Module Store.

(** Modelled from the spec: the load of the base source (viper is not under
    src/); repeating it loads the same settings. *)
Definition ReadInConfig (v : Viper) : Viper * option error :=
  match configSource v with
  | SourceOk settings =>
      ({| configSource := configSource v; config := settings; defaults := defaults v;
          env := env v; envPrefix := envPrefix v; envKeyReplacer := envKeyReplacer v |},
       None)
  | SourceAbsent => (v, Some ConfigFileNotFoundError)
  | SourceBroken msg => (v, Some (ConfigError msg))
  end.

Definition SetEnvKeyReplacer (v : Viper) (r : ascii * ascii) : Viper :=
  {| configSource := configSource v; config := config v; defaults := defaults v;
     env := env v; envPrefix := envPrefix v; envKeyReplacer := Some r |}.

Definition SetDefault (v : Viper) (key : string) (val : value) : Viper :=
  {| configSource := configSource v; config := config v;
     defaults := (key, val) :: defaults v;
     env := env v; envPrefix := envPrefix v; envKeyReplacer := envKeyReplacer v |}.

(** Modelled from the spec: the environment name a key is bound to (viper
    is not under src/): the prefix and an underscore, when a prefix is
    configured, then the key, all upper-cased. *)
Definition mergeWithEnvPrefix (v : Viper) (key : string) : string :=
  if String.eqb (envPrefix v) "" then Strings.ToUpper key
  else Strings.ToUpper (envPrefix v ++ "_" ++ key).

(** Modelled from the spec: [BindEnv key], a lazy binding (viper is not
    under src/).  It fails, and binds nothing, only on the empty key, as the
    comment of lines 211-212 has it. *)
Definition BindEnv (v : Viper) (key : string) : Viper :=
  if String.eqb key "" then v
  else {| configSource := configSource v; config := config v; defaults := defaults v;
          env := (key, mergeWithEnvPrefix v key) :: env v;
          envPrefix := envPrefix v; envKeyReplacer := envKeyReplacer v |}.

(** Modelled from the spec: the name looked up in the process environment
    for a bound name (viper is not under src/); the separator substitution
    applies at read time. *)
Definition envName (v : Viper) (bound : string) : string :=
  match envKeyReplacer v with
  | Some (old, new) => Strings.Replace old new bound
  | None => bound
  end.

(** What a read of the store yields, and from where. *)
Inductive found : Type :=
| FromEnv (s : string)
| FromEnvFields (items : list string)
| FromConfig (d : data)
| FromDefault (d : value).

(** Modelled from the spec: the store's read by key (viper is not under
    src/).  A bound variable that is set wins over the base source, which
    wins over a registered default. *)
Definition find (v : Viper) (e : Os.environ) (key : string) : option found :=
  match match assoc (env v) key with
        | Some bound => Os.LookupEnv e (envName v bound)
        | None => None
        end with
  | Some s => Some (FromEnv s)
  | None =>
      match assoc (config v) key with
      | Some d => Some (FromConfig d)
      | None =>
          match assoc (defaults v) key with
          | Some d => Some (FromDefault d)
          | None => None
          end
      end
  end.

(** Modelled from the spec: a value read from the environment for a key
    whose registered default is a string or integer sequence is split on
    white space by the store (viper is not under src/). *)
Definition Get (v : Viper) (e : Os.environ) (key : string) : option found :=
  match find v e key with
  | Some (FromEnv s) =>
      match assoc (defaults v) key with
      | Some (VSlice (TBasic String_) _) | Some (VSlice (TBasic Int) _) =>
          Some (FromEnvFields (Strings.Fields s))
      | _ => Some (FromEnv s)
      end
  | r => r
  end.

End Store.

(** ** The state one [Unmarshal] runs in *)

(** What the code does to the store and to the environment, in order. *)
Inductive event : Type :=
| EvReadInConfig
| EvDecode                              (* one run of the structure decoder *)
| EvSetEnvKeyReplacer
| EvBindEnv (key : string)
| EvSetDefault (key : string)
| EvEnviron
| EvGetenv (name : string)
| EvSetenv (name val : string).

Record world : Type := {
  viper : Viper;
  environ : Os.environ;
  trace : list event                    (* oldest first *)
}.

(** [Enviper]'s own field, the tag name; the embedded store is the [viper]
    of the [world]. *)
Record Enviper : Type := {
  tagName : string
}.

Definition defaultTagName : string := "mapstructure".

Definition New : Enviper := {| tagName := "" |}.

Definition WithTagName (e : Enviper) (customTagName : string) : Enviper :=
  {| tagName := customTagName |}.

Definition TagName (e : Enviper) : string :=
  if String.eqb (tagName e) "" then defaultTagName else tagName e.

(** ** The walk: [bindEnvs] *)

(** What the tag of a struct field makes of it (lines 121-143). *)
Inductive fieldAction : Type :=
| Skip                       (* [continue] *)
| Squash                     (* recurse with the current path *)
| Segment (tv : string).     (* recurse with [tv] appended *)

Definition tagAction (lookup : option string) (name : string) : fieldAction :=
  match lookup with
  | Some tv =>
      match Strings.Index tv ","%char with
      | Some index =>
          if String.eqb (Strings.take index tv) "-" then Skip
          else if Strings.Contains (Strings.drop (S index) tv) "squash" then Squash
          else let tv := Strings.take index tv in
               Segment (if String.eqb tv "" then name else tv)
      | None => Segment (if String.eqb tv "" then name else tv)
      end
  | None => Segment name
  end.

Definition log (w : world) (evs : list event) : world :=
  {| viper := viper w; environ := environ w; trace := (trace w ++ evs)%list |}.

(** The [default] case (lines 209-214). *)
Definition bindDefault (prev : list string) (w : world) : world :=
  let env := Strings.Join prev "." in
  {| viper := Store.BindEnv (viper w) env;
     environ := environ w;
     trace := (trace w ++ [EvBindEnv env])%list |}.

(** Lines 160-175: the environment name of a sequence binding. *)
Definition sliceKey (v : Viper) (env : string) : string :=
  let key := env in
  let key := match envKeyReplacer v with
             | Some (old, new) => Strings.Replace old new key
             | None => key
             end in
  let key := if String.eqb (envPrefix v) "" then key
             else Strings.ToUpper (envPrefix v ++ "_" ++ key) in
  Strings.ToUpper key.

(** Lines 177-185: the names of the entries that start with [key ++ "_"],
    in enumeration order. *)
Definition matching (e : Os.environ) (key : string) : list string :=
  List.map Strings.before_eq
    (List.filter (fun s => Strings.HasPrefix s (key ++ "_")) (Os.Environ e)).

Definition collect (e : Os.environ) (key : string) : list string :=
  List.map (Os.Getenv e) (matching e key).

Section Walk.

(** [json.Unmarshal] into an [interface{}]: [None] when it returns an error. *)
Variable json_Unmarshal : string -> option data.

(** Lines 196-204: one collected string, decoded or kept as it is. *)
Definition decodeElement (str : string) : data :=
  match json_Unmarshal str with
  | Some decodedValue => decodedValue
  | None => JString str
  end.

(** The [reflect.Slice] case (lines 156-208).  [supportedCast] gets [in_],
    the argument of [bindEnvs], which is the sequence itself (or a pointer
    to it), never one of its elements. *)
Definition bindSlice (in_ : value) (prev : list string) (w : world) : world :=
  let env := Strings.Join prev "." in
  let v := Store.BindEnv (viper w) env in
  let key := sliceKey v env in
  let names := matching (environ w) key in
  let values := List.map (Os.Getenv (environ w)) names in
  let castedByViper := supportedCast in_ in
  let v := Store.SetDefault v env in_ in
  let text := if castedByViper then Strings.Join values " "
              else Json.Marshal (List.map decodeElement values) in
  {| viper := v;
     environ := Os.Setenv (environ w) key text;
     trace := (trace w ++ [EvBindEnv env; EvEnviron] ++ List.map EvGetenv names
                       ++ [EvSetDefault env; EvSetenv key text])%list |}.

Variable tag : string.       (* [e.TagName()] *)

(** The loop over the fields of a struct (lines 112-148), for one field:
    [canInterface] is [fv.CanInterface()] and [call] is
    [e.bindEnvs(fv.Interface(), ...)], both after the pointer step of lines
    114-120.  [None] stands for a panic: [Interface] called on a value
    reached through an unexported field. *)
Definition bindField (name : string) (tg : StructTag) (canInterface : bool)
    (call : list string -> world -> option world)
    (prev : list string) (w : world) : option world :=
  match tagAction (assoc tg tag) name with
  | Skip => Some w
  | Squash => if canInterface then call prev w else None
  | Segment tv => if canInterface then call (prev ++ [tv])%list w else Some w
  end.

(** [bindEnvs] on the zero value of a type, which is what the walk sees
    under an empty pointer field. *)
Fixpoint bindEnvsZero (t : gotype) (prev : list string) (w : world) {struct t}
  : option world :=
  match t with
  | TStruct fs =>
      (fix loop (fs : list (string * StructTag * bool * gotype)) (w : world)
         {struct fs} : option world :=
         match fs with
         | [] => Some w
         | (name, tg, exported, ft) :: rest =>
             (* a pointer field is nil here: the walk takes a fresh zero
                value of its pointee, which is never read-only *)
             match bindField name tg
                     (match ft with TPtr _ => true | _ => exported end)
                     (bindEnvsZero (match ft with TPtr pt => pt | _ => ft end))
                     prev w with
             | Some w' => loop rest w'
             | None => None
             end
         end) fs w
  | TTime => Some w
  | TMap _ _ => Some w
  | TSlice el => Some (bindSlice (VSlice el []) prev w)
  | _ => Some (bindDefault prev w)
  end.

(** Lines 105-108 and the dispatch on a kind function [k]: the pointer step
    of [bindEnvs] on its argument [in_]. *)
Definition enterWith (k : value -> value -> list string -> world -> option world)
    (in_ : value) (prev : list string) (w : world) : option world :=
  match in_ with
  | VPtr _ None => Some (bindDefault prev w)      (* invalid kind *)
  | VPtr _ (Some ifv) => k ifv in_ prev w
  | _ => k in_ in_ prev w
  end.

(** [e.bindEnvs(x.Interface(), p...)]: [Interface] yields the dynamic value
    of an interface-kinded [x], and [nil] for an empty one. *)
Definition callWith (k : value -> value -> list string -> world -> option world)
    (x : value) (prev : list string) (w : world) : option world :=
  match x with
  | VInterface None => Some (bindDefault prev w)
  | VInterface (Some d) => enterWith k d prev w
  | _ => enterWith k x prev w
  end.

(** [bindEnvs] from the [switch ifv.Kind()] on (lines 110-214): [ifv] is
    the value after the pointer step and [in_] the argument as it was
    passed.  A [time.Time] is a struct of unexported fields: two integers,
    which cannot be interfaced, and a pointer to a location, whose own
    fields are unexported in turn; the loop binds nothing under it. *)
Fixpoint bindEnvsKind (ifv in_ : value) (prev : list string) (w : world) {struct ifv}
  : option world :=
  match ifv with
  | VStruct fs =>
      (fix loop (fs : list (string * StructTag * bool * value)) (w : world)
         {struct fs} : option world :=
         match fs with
         | [] => Some w
         | (name, tg, exported, f0) :: rest =>
             match bindField name tg
                     (match f0 with VPtr _ None => true | _ => exported end)
                     (match f0 with
                      | VPtr pt None => bindEnvsZero pt
                      | VPtr _ (Some x) => callWith bindEnvsKind x
                      | _ => callWith bindEnvsKind f0
                      end)
                     prev w with
             | Some w' => loop rest w'
             | None => None
             end
         end) fs w
  | VTime => Some w
  | VMap _ _ entries =>
      (fix iter (es : list (mapkey * value)) (w : world) {struct es} : option world :=
         match es with
         | [] => Some w
         | (KString key, v) :: rest =>
             match callWith bindEnvsKind v (prev ++ [key])%list w with
             | Some w' => iter rest w'
             | None => None
             end
         | (KOther, _) :: rest => iter rest w
         end) entries w
  | VSlice _ _ => Some (bindSlice in_ prev w)
  | _ => Some (bindDefault prev w)
  end.

(** [bindEnvs] (lines 104-215). *)
Definition bindEnvs (in_ : value) (prev : list string) (w : world) : option world :=
  enterWith bindEnvsKind in_ prev w.

(** [readEnvs] (lines 99-102). *)
Definition readEnvs (rawVal : value) (w : world) : option world :=
  bindEnvs rawVal []
    {| viper := Store.SetEnvKeyReplacer (viper w) ("."%char, "_"%char);
       environ := environ w;
       trace := (trace w ++ [EvSetEnvKeyReplacer])%list |}.

End Walk.

(** ** The decode hook and [Unmarshal] *)

Inductive kind : Type :=
| KindString | KindSlice | KindOther.

Definition Kind (t : gotype) : kind :=
  match t with
  | TBasic String_ => KindString
  | TSlice _ => KindSlice
  | _ => KindOther
  end.

(** The kind and the text of a value handed to the hook by the decoder. *)
Definition foundKind (d : Store.found) : kind :=
  match d with
  | Store.FromEnv _ => KindString
  | Store.FromEnvFields _ => KindSlice
  | Store.FromConfig (JString _) => KindString
  | Store.FromConfig (JArray _) => KindSlice
  | Store.FromConfig _ => KindOther
  | Store.FromDefault v => Kind (type_of v)
  end.

Definition foundText (d : Store.found) : option string :=
  match d with
  | Store.FromEnv s => Some s
  | Store.FromConfig (JString s) => Some s
  | Store.FromDefault (VBasic String_ s) => Some s
  | _ => None
  end.

(** What the hook hands back: its input, or the freshly decoded target. *)
Inductive hooked : Type :=
| Data (d : Store.found)
| Target (d : data).

Section Orchestrator.

Variable json_Unmarshal : string -> option data.

(** [json.Unmarshal] into a fresh value of a given type: [None] when it
    returns an error. *)
Variable json_UnmarshalInto : gotype -> string -> option data.

(** The structure decoder, [e.Viper.Unmarshal(rawVal, opts...)], with the
    tag name and the hook among its options: the target as it leaves it,
    and its error. *)
Variable Decode : string -> Viper -> Os.environ -> value -> value * option error.

(** [SliceDecodeHook] (lines 47-71).  [None] stands for the panic of the
    type assertion [data.(string)] on a value that is not a [string]. *)
Definition SliceDecodeHook (f : kind) (t : gotype) (d : Store.found) : option hooked :=
  match f with
  | KindString =>
      match Kind t with
      | KindSlice =>
          match foundText d with
          | Some s =>
              match json_UnmarshalInto t s with
              | Some target => Some (Target target)
              | None => Some (Data d)
              end
          | None => None
          end
      | _ => Some (Data d)
      end
  | _ => Some (Data d)
  end.

(** What one [Unmarshal] leaves behind.  [result] is the error returned. *)
Record outcome : Type := {
  result : option error;
  rawVal' : value;
  final : world
}.

(** [Unmarshal] (lines 75-97).  [None] stands for a panic in the walk. *)
Definition Unmarshal (e : Enviper) (rawVal : value) (w : world) : option outcome :=
  let tag := TagName e in
  let '(v, err) := Store.ReadInConfig (viper w) in
  let w := {| viper := v; environ := environ w;
              trace := (trace w ++ [EvReadInConfig])%list |} in
  match err with
  | Some (ConfigError _ as err) | Some (DecodeError _ as err) =>
      Some {| result := Some err; rawVal' := rawVal; final := w |}
  | Some ConfigFileNotFoundError | None =>
      let rawVal := fst (Decode tag (viper w) (environ w) rawVal) in
      let w := log w [EvDecode] in
      match readEnvs json_Unmarshal tag rawVal w with
      | Some w =>
          let '(rawVal, err) := Decode tag (viper w) (environ w) rawVal in
          Some {| result := err; rawVal' := rawVal; final := log w [EvDecode] |}
      | None => None
      end
  end.

(** The value the final decode pass reads for a key whose target has type
    [t], after the hook: what the claims call the final decoded value. *)
Definition decoded (w : world) (t : gotype) (key : string) : option hooked :=
  match Store.Get (viper w) (environ w) key with
  | Some d => SliceDecodeHook (foundKind d) t d
  | None => None
  end.

End Orchestrator.

(** ** The walk as a list of bindings

    The control flow of [bindEnvs] never looks at the store or at the
    environment, so the walk factors into the list of bindings it performs,
    in order, and their effect on the state. *)

Inductive action : Type :=
| ADefault (prev : list string)                 (* the [default] case *)
| ASlice (in_ : value) (prev : list string).    (* the [reflect.Slice] case *)

Definition andThen (a : option (list action)) (k : option (list action))
  : option (list action) :=
  match a, k with
  | Some x, Some y => Some (x ++ y)%list
  | _, _ => None
  end.

Section Actions.

Variable tag : string.

Definition fieldActions (name : string) (tg : StructTag) (canInterface : bool)
    (call : list string -> option (list action)) (prev : list string)
  : option (list action) :=
  match tagAction (assoc tg tag) name with
  | Skip => Some []
  | Squash => if canInterface then call prev else None
  | Segment tv => if canInterface then call (prev ++ [tv])%list else Some []
  end.

Fixpoint actionsZero (t : gotype) (prev : list string) {struct t}
  : option (list action) :=
  match t with
  | TStruct fs =>
      (fix loop (fs : list (string * StructTag * bool * gotype)) {struct fs}
         : option (list action) :=
         match fs with
         | [] => Some []
         | (name, tg, exported, ft) :: rest =>
             andThen
               (fieldActions name tg
                  (match ft with TPtr _ => true | _ => exported end)
                  (actionsZero (match ft with TPtr pt => pt | _ => ft end))
                  prev)
               (loop rest)
         end) fs
  | TTime => Some []
  | TMap _ _ => Some []
  | TSlice el => Some [ASlice (VSlice el []) prev]
  | _ => Some [ADefault prev]
  end.

Definition enterActions (k : value -> value -> list string -> option (list action))
    (in_ : value) (prev : list string) : option (list action) :=
  match in_ with
  | VPtr _ None => Some [ADefault prev]
  | VPtr _ (Some ifv) => k ifv in_ prev
  | _ => k in_ in_ prev
  end.

Definition callActions (k : value -> value -> list string -> option (list action))
    (x : value) (prev : list string) : option (list action) :=
  match x with
  | VInterface None => Some [ADefault prev]
  | VInterface (Some d) => enterActions k d prev
  | _ => enterActions k x prev
  end.

Fixpoint actionsKind (ifv in_ : value) (prev : list string) {struct ifv}
  : option (list action) :=
  match ifv with
  | VStruct fs =>
      (fix loop (fs : list (string * StructTag * bool * value)) {struct fs}
         : option (list action) :=
         match fs with
         | [] => Some []
         | (name, tg, exported, f0) :: rest =>
             andThen
               (fieldActions name tg
                  (match f0 with VPtr _ None => true | _ => exported end)
                  (match f0 with
                   | VPtr pt None => actionsZero pt
                   | VPtr _ (Some x) => callActions actionsKind x
                   | _ => callActions actionsKind f0
                   end)
                  prev)
               (loop rest)
         end) fs
  | VTime => Some []
  | VMap _ _ entries =>
      (fix iter (es : list (mapkey * value)) {struct es} : option (list action) :=
         match es with
         | [] => Some []
         | (KString key, v) :: rest =>
             andThen (callActions actionsKind v (prev ++ [key])%list) (iter rest)
         | (KOther, _) :: rest => iter rest
         end) entries
  | VSlice _ _ => Some [ASlice in_ prev]
  | _ => Some [ADefault prev]
  end.

(** The bindings of [bindEnvs in_ prev]. *)
Definition actions (in_ : value) (prev : list string) : option (list action) :=
  enterActions actionsKind in_ prev.

End Actions.

Section Run.

Variable json_Unmarshal : string -> option data.

Definition run1 (w : world) (a : action) : world :=
  match a with
  | ADefault prev => bindDefault prev w
  | ASlice in_ prev => bindSlice json_Unmarshal in_ prev w
  end.

Definition run (acts : list action) (w : world) : world :=
  List.fold_left run1 acts w.

(** The effect of a walk that may have panicked. *)
Definition runs (acts : option (list action)) (w : world) : option world :=
  option_map (fun a => run a w) acts.

End Run.

(** What the factoring of the walk says of one value: of its kind switch,
    of a call on it, and of a call on what it points to. *)
Section FactorStatements.

Variable json_Unmarshal : string -> option data.
Variable tag : string.

Definition kind_ok (v : value) : Prop :=
  forall in_ prev w,
    bindEnvsKind json_Unmarshal tag v in_ prev w
    = runs json_Unmarshal (actionsKind tag v in_ prev) w.

Definition call_ok (v : value) : Prop :=
  forall prev w,
    callWith (bindEnvsKind json_Unmarshal tag) v prev w
    = runs json_Unmarshal (callActions (actionsKind tag) v prev) w.

Definition target_ok (v : value) : Prop :=
  match v with VPtr _ (Some x) => call_ok x | _ => True end.

End FactorStatements.

(** The type a pointer type points to; any other type itself. *)
Definition deref (t : gotype) : gotype :=
  match t with TPtr pt => pt | _ => t end.

(** ** Induction on types and values, through their lists of fields *)

Section GotypeInd.

Variable P : gotype -> Prop.
Hypothesis HBasic : forall b, P (TBasic b).
Hypothesis HTime : P TTime.
Hypothesis HStruct : forall fs, Forall (fun f => P (snd f)) fs -> P (TStruct fs).
Hypothesis HMap : forall k e, P k -> P e -> P (TMap k e).
Hypothesis HSlice : forall e, P e -> P (TSlice e).
Hypothesis HPtr : forall e, P e -> P (TPtr e).
Hypothesis HInterface : P TInterface.

Fixpoint gotype_nested_ind (t : gotype) : P t :=
  match t with
  | TBasic b => HBasic b
  | TTime => HTime
  | TStruct fs =>
      HStruct fs
        ((fix all (l : list (string * StructTag * bool * gotype))
            : Forall (fun f => P (snd f)) l :=
            match l with
            | [] => Forall_nil _
            | f :: r => Forall_cons f (gotype_nested_ind (snd f)) (all r)
            end) fs)
  | TMap k e => HMap k e (gotype_nested_ind k) (gotype_nested_ind e)
  | TSlice e => HSlice e (gotype_nested_ind e)
  | TPtr e => HPtr e (gotype_nested_ind e)
  | TInterface => HInterface
  end.

End GotypeInd.

Section ValueInd.

Variable P : value -> Prop.
Hypothesis HBasic : forall b lit, P (VBasic b lit).
Hypothesis HTime : P VTime.
Hypothesis HStruct : forall fs, Forall (fun f => P (snd f)) fs -> P (VStruct fs).
Hypothesis HMap : forall k e es, Forall (fun kv => P (snd kv)) es -> P (VMap k e es).
Hypothesis HSlice : forall e items, P (VSlice e items).
Hypothesis HPtrNil : forall e, P (VPtr e None).
Hypothesis HPtr : forall e v, P v -> P (VPtr e (Some v)).
Hypothesis HInterfaceNil : P (VInterface None).
Hypothesis HInterface : forall v, P v -> P (VInterface (Some v)).

Fixpoint value_nested_ind (v : value) : P v :=
  match v with
  | VBasic b lit => HBasic b lit
  | VTime => HTime
  | VStruct fs =>
      HStruct fs
        ((fix all (l : list (string * StructTag * bool * value))
            : Forall (fun f => P (snd f)) l :=
            match l with
            | [] => Forall_nil _
            | f :: r => Forall_cons f (value_nested_ind (snd f)) (all r)
            end) fs)
  | VMap k e es =>
      HMap k e es
        ((fix all (l : list (mapkey * value)) : Forall (fun kv => P (snd kv)) l :=
            match l with
            | [] => Forall_nil _
            | kv :: r => Forall_cons kv (value_nested_ind (snd kv)) (all r)
            end) es)
  | VSlice e items => HSlice e items
  | VPtr e None => HPtrNil e
  | VPtr e (Some x) => HPtr e x (value_nested_ind x)
  | VInterface None => HInterfaceNil
  | VInterface (Some x) => HInterface x (value_nested_ind x)
  end.

End ValueInd.

(** ** The environment-variable name, in the words of the specification *)


Definition dotFree (s : string) : Prop := Strings.free_of "."%char s = true.

(** ** The stages of one [Unmarshal] *)

Section Stages.

Variable Decode : string -> Viper -> Os.environ -> value -> value * option error.

(** The target as the walk sees it: after the first, silenced, decode. *)
Definition seen (e : Enviper) (rawVal : value) (w : world) : value :=
  fst (Decode (TagName e) (fst (Store.ReadInConfig (viper w))) (environ w) rawVal).

(** The state the walk starts in: the base source loaded, the first decode
    done, the separator substitution installed. *)
Definition prepared (w : world) : world :=
  {| viper := Store.SetEnvKeyReplacer (fst (Store.ReadInConfig (viper w)))
                ("."%char, "_"%char);
     environ := environ w;
     trace := (((trace w ++ [EvReadInConfig]) ++ [EvDecode]) ++ [EvSetEnvKeyReplacer])%list |}.

(** What [Unmarshal] returns once the walk has left the state [w2]. *)
Definition finish (e : Enviper) (rawVal : value) (w w2 : world) : outcome :=
  let r := Decode (TagName e) (viper w2) (environ w2) (seen e rawVal w) in
  {| result := snd r; rawVal' := fst r; final := log w2 [EvDecode] |}.

End Stages.

(** The store key and the environment name of a binding. *)
Definition keyOf (a : action) : string :=
  match a with
  | ADefault prev => Strings.Join prev "."
  | ASlice _ prev => Strings.Join prev "."
  end.

Definition isSlice (a : action) : bool :=
  match a with ASlice _ _ => true | ADefault _ => false end.

(** The variable a sequence binding writes. *)
Definition writes (v : Viper) (a : action) (name : string) : Prop :=
  isSlice a = true /\ sliceKey v (keyOf a) = name.

(** What the store holds for a key besides the environment. *)
Definition baseOrDefault (v : Viper) (key : string) : option Store.found :=
  match assoc (config v) key with
  | Some d => Some (Store.FromConfig d)
  | None =>
      match assoc (defaults v) key with
      | Some d => Some (Store.FromDefault d)
      | None => None
      end
  end.

(** The settings of the store the walk never changes. *)
Definition sameSettings (v v' : Viper) : Prop :=
  configSource v' = configSource v /\ config v' = config v
  /\ envPrefix v' = envPrefix v /\ envKeyReplacer v' = envKeyReplacer v.

(** The environment name the store reads for a key bound by the walk. *)
Definition boundName (v : Viper) (key : string) : string :=
  Store.envName v (Store.mergeWithEnvPrefix v key).

(** A name [os.Setenv] accepts. *)
Definition validName (name : string) : Prop :=
  name <> "" /\ Strings.free_of "="%char name = true.

(** ** Environments that differ in the values of some variables only *)

(** Entry names hold no ["="], as the operating system has them. *)
Definition wfEnv (e : Os.environ) : Prop :=
  Forall (fun kv => Strings.free_of "="%char (fst kv) = true) e.

(** The same names in the same order, and the same values but for the
    names [N] picks. *)
Definition differOnly (N : string -> bool) (e1 e2 : Os.environ) : Prop :=
  Forall2 (fun a b => fst a = fst b /\ (N (fst a) = false -> snd a = snd b)) e1 e2.

(** No variable [N] picks has an entry a sequence binding of [acts] scans. *)
Definition unscanned (N : string -> bool) (v : Viper) (acts : list action) : Prop :=
  forall a, In a acts -> isSlice a = true ->
  forall name val, N name = true ->
    Strings.HasPrefix (name ++ "=" ++ val) (sliceKey v (keyOf a) ++ "_") = false.

(** ** What two runs of the walk write *)

Section Writes.

Variable json_Unmarshal : string -> option data.

(** The text a sequence binding writes, from the environment it scans. *)
Definition sliceText (e : Os.environ) (key : string) (in_ : value) : string :=
  let values := collect e key in
  if supportedCast in_ then Strings.Join values " "
  else Json.Marshal (List.map (decodeElement json_Unmarshal) values).


End Writes.







(** A collected value the store's split hands back as one element: it is
    not empty and holds no white space. *)
Fixpoint spaceFree (s : string) : bool :=
  match s with
  | EmptyString => true
  | String c r => negb (Strings.is_space c) && spaceFree r
  end.

Definition isWord (s : string) : bool :=
  negb (String.eqb s "") && spaceFree s.

(** ** The calls of the walk *)

(** The value [bindEnvs] switches on, after the pointer step of lines
    105-108; an empty pointer has none. *)
Definition pointee (in_ : value) : option value :=
  match in_ with
  | VPtr _ None => None
  | VPtr _ (Some ifv) => Some ifv
  | _ => Some in_
  end.

(** [x.Interface()] as the argument of a call of [bindEnvs]; an empty
    interface hands over [nil], which is no value. *)
Definition interfaceOf (x : value) : option value :=
  match x with
  | VInterface None => None
  | VInterface (Some d) => Some d
  | _ => Some x
  end.

(** What a field hands to the call of lines 131 and 146, after lines
    113-120: the zero value of the pointee for an empty pointer, which can
    be interfaced whatever the field; else the field, or what it points to,
    when the field is exported. *)
Definition fieldArgument (exported : bool) (f0 : value) : option value :=
  match f0 with
  | VPtr pt None => Some (zero pt)
  | VPtr _ (Some x) => if exported then interfaceOf x else None
  | _ => if exported then interfaceOf f0 else None
  end.

(** The path of that call: none for a skipped field. *)
Definition fieldPath (a : fieldAction) (prev : list string) : option (list string) :=
  match a with
  | Skip => None
  | Squash => Some prev
  | Segment tv => Some (prev ++ [tv])%list
  end.

(** [reaches tag root p0 x path]: the walk [bindEnvs root p0] calls
    [bindEnvs x path], at any depth, through fields of structs (lines
    112-148) and entries of maps with string keys (lines 149-155). *)
Inductive reaches (tag : string) (root : value) (p0 : list string)
  : value -> list string -> Prop :=
| reaches_root : reaches tag root p0 root p0
| reaches_field in_ prev fs name tg exported f0 x path :
    reaches tag root p0 in_ prev ->
    pointee in_ = Some (VStruct fs) ->
    In (name, tg, exported, f0) fs ->
    fieldArgument exported f0 = Some x ->
    fieldPath (tagAction (assoc tg tag) name) prev = Some path ->
    reaches tag root p0 x path
| reaches_entry in_ prev k e es key v x :
    reaches tag root p0 in_ prev ->
    pointee in_ = Some (VMap k e es) ->
    In (KString key, v) es ->
    interfaceOf v = Some x ->
    reaches tag root p0 x (prev ++ [key])%list.

(** ** Concrete collaborators and inputs for the examples *)

Module Demo.

Definition is_digit (c : ascii) : bool :=
  let n := nat_of_ascii c in ((48 <=? n) && (n <=? 57))%nat.

Fixpoint all_digits (s : string) : bool :=
  match s with
  | EmptyString => true
  | String c r => is_digit c && all_digits r
  end.

(** [json.Unmarshal] on the texts the examples use: the literal names, the
    empty array and unsigned integers are decoded; a bare word is refused. *)
Definition json_Unmarshal (s : string) : option data :=
  if String.eqb s "true" then Some (JBool true)
  else if String.eqb s "false" then Some (JBool false)
  else if String.eqb s "null" then Some JNull
  else if String.eqb s "[]" then Some (JArray [])
  else match s with
       | String c r =>
           if is_digit c && all_digits r && (negb (Ascii.eqb c "0"%char) || String.eqb r "")
           then Some (JNumber s) else None
       | EmptyString => None
       end.

(** [json.Unmarshal] into a slice, on the same texts: an array and [null]
    fit a slice, nothing else does. *)
Definition json_UnmarshalInto (t : gotype) (s : string) : option data :=
  match t, json_Unmarshal s with
  | TSlice _, Some (JArray items) => Some (JArray items)
  | TSlice _, Some JNull => Some JNull
  | _, _ => None
  end.

(** A structure decoder run that finds nothing to change in the target. *)
Definition Decode (tag : string) (v : Viper) (e : Os.environ) (rawVal : value)
  : value * option error := (rawVal, None).

Definition store (src : source) (prefix : string) : Viper :=
  {| configSource := src; config := []; defaults := []; env := [];
     envPrefix := prefix; envKeyReplacer := None |}.

(** A store after [readEnvs] has installed the separator substitution. *)
Definition storeRead (prefix : string) : Viper :=
  Store.SetEnvKeyReplacer (store SourceAbsent prefix) ("."%char, "_"%char).

Definition start (v : Viper) (e : Os.environ) : world :=
  {| viper := v; environ := e; trace := [] |}.

(** [struct { Flags []bool }] and an environment with two elements for it. *)
Definition flags : value := VSlice (TBasic Bool) [].
Definition flagsEnv : Os.environ := [("FLAGS_1", "true"); ("FLAGS_2", "false")].

(** [struct { Items []struct{} }] with one element that is not JSON. *)
Definition items : value := VSlice (TStruct []) [].
Definition itemsEnv : Os.environ := [("ITEMS_1", "oops"); ("ITEMS_2", "7")].

(** [struct { Port int }], a base source that sets it, a variable for it. *)
Definition port : value := VStruct [("Port", [], true, VBasic Int "0")].
Definition portBase : source := SourceOk [("Port", JNumber "1")].
Definition portEnv : Os.environ := [("PORT", "2")].

(** [struct { Items []bool }] and a base source that sets it. *)
Definition itemsOf : value := VStruct [("Items", [], true, VSlice (TBasic Bool) [])].
Definition itemsBase : source := SourceOk [("Items", JArray [JBool true])].

(** [struct { List []string }] and two variables for its elements. *)
Definition list : value := VStruct [("List", [], true, VSlice (TBasic String_) [])].
Definition listEnv : Os.environ := [("LIST_1", "foo"); ("LIST_2", "bar")].

(** A variable for the host of a database. *)
Definition dbEnv : Os.environ := [("DB_HOST", "example.org")].

(** [struct { List []string; List_X string `mapstructure:"-,"` }]. *)
Definition skipTag : StructTag := [("mapstructure", "-,")].
Definition listSkip : value :=
  VStruct [("List", [], true, VSlice (TBasic String_) []);
           ("List_X", skipTag, true, VBasic String_ "")].

(** [struct { Port int; Secret string `mapstructure:"-,"` }]. *)
Definition portSecret : value :=
  VStruct [("Port", [], true, VBasic Int "0");
           ("Secret", skipTag, true, VBasic String_ "")].
Definition isSecret (name : string) : bool := String.eqb name "SECRET".

(** [struct { Other []bool; List []string; More []int }]. *)
Definition listAmong : value :=
  VStruct [("Other", [], true, VSlice (TBasic Bool) []);
           ("List", [], true, VSlice (TBasic String_) []);
           ("More", [], true, VSlice (TBasic Int) [])].

(** [struct { A_B []bool; A []string }] and two elements for [A]. *)
Definition shadowed : value :=
  VStruct [("A_B", [], true, VSlice (TBasic Bool) []);
           ("A", [], true, VSlice (TBasic String_) [])].
Definition shadowedEnv : Os.environ := [("A_1", "foo"); ("A_2", "bar")].

(** [struct { Db *struct { Host string }; Db_Host []string }] with [Db]
    left empty. *)
Definition dbShadowed : value :=
  VStruct [("Db", [], true, VPtr (TStruct [("Host", [], true, TBasic String_)]) None);
           ("Db_Host", [], true, VSlice (TBasic String_) [])].

(** [struct { Server struct { Db *struct { Host string } } }] with [Db]
    left empty. *)
Definition nestedDb : value :=
  VStruct [("Server", [], true,
            VStruct [("Db", [], true,
                      VPtr (TStruct [("Host", [], true, TBasic String_)]) None)])].
Definition nestedDbEnv : Os.environ := [("SERVER_DB_HOST", "example.org")].


End Demo.

(** * Properties *)

(** ** The walk and its list of bindings *)

Section Factor.

Variable json_Unmarshal : string -> option data.
Variable tag : string.

Lemma run_app (a b : list action) (w : world) :
  run json_Unmarshal (a ++ b) w = run json_Unmarshal b (run json_Unmarshal a w).
Proof. unfold run. apply fold_left_app. Qed.

Lemma bindField_actions name tg can call callA prev w :
  (forall p w, call p w = runs json_Unmarshal (callA p) w) ->
  bindField tag name tg can call prev w = runs json_Unmarshal (fieldActions tag name tg can callA prev) w.
Proof.
  intros H. unfold bindField, fieldActions.
  destruct (tagAction (assoc tg tag) name); [reflexivity | |];
    destruct can; auto.
Qed.

Lemma andThen_runs a k w (f : world -> option world) :
  (forall w, f w = runs json_Unmarshal k w) ->
  match runs json_Unmarshal a w with Some w' => f w' | None => None end = runs json_Unmarshal (andThen a k) w.
Proof.
  intros H. destruct a as [x|]; simpl; [|reflexivity].
  rewrite H. destruct k as [y|]; simpl; [|reflexivity].
  now rewrite run_app.
Qed.

Lemma bindEnvsZero_actions (t : gotype) :
  forall prev w,
    bindEnvsZero json_Unmarshal tag t prev w = runs json_Unmarshal (actionsZero tag t prev) w.
Proof.
  enough (H : (forall prev w,
               bindEnvsZero json_Unmarshal tag t prev w = runs json_Unmarshal (actionsZero tag t prev) w)
              /\ (forall prev w,
               bindEnvsZero json_Unmarshal tag (deref t) prev w
               = runs json_Unmarshal (actionsZero tag (deref t) prev) w)) by apply H.
  induction t using gotype_nested_ind; try (split; intros; reflexivity).
  - (* struct *)
    assert (A : forall prev w,
      bindEnvsZero json_Unmarshal tag (TStruct fs) prev w
      = runs json_Unmarshal (actionsZero tag (TStruct fs) prev) w).
    { intros prev. simpl. induction H as [|[[[name tg] ex] ft] rest [_ Hd] _ IH];
        intros w; [reflexivity|].
      simpl in Hd. fold (deref ft).
      rewrite (bindField_actions name tg _ _ (actionsZero tag (deref ft)) prev w Hd).
      apply andThen_runs. exact IH. }
    split; exact A.
  - (* pointer *)
    split; [intros; reflexivity | exact (proj1 IHt)].
Qed.

Lemma map_loop_actions (es : list (mapkey * value)) (prev : list string) :
  Forall (fun kv => call_ok json_Unmarshal tag (snd kv)) es ->
  forall in_ k e w,
    bindEnvsKind json_Unmarshal tag (VMap k e es) in_ prev w
    = runs json_Unmarshal (actionsKind tag (VMap k e es) in_ prev) w.
Proof.
  intros H in_ k e. simpl.
  induction H as [|[[key|] v] rest Hd _ IH]; intros w; [reflexivity | | apply IH].
  simpl in Hd. rewrite Hd. apply andThen_runs. exact IH.
Qed.

Lemma struct_loop_actions (fs : list (string * StructTag * bool * value))
    (prev : list string) :
  Forall (fun f => call_ok json_Unmarshal tag (snd f) /\ target_ok json_Unmarshal tag (snd f)) fs ->
  forall in_ w,
    bindEnvsKind json_Unmarshal tag (VStruct fs) in_ prev w
    = runs json_Unmarshal (actionsKind tag (VStruct fs) in_ prev) w.
Proof.
  intros H in_. simpl.
  induction H as [|[[[name tg] ex] f0] rest [Hc Ht] _ IH]; intros w; [reflexivity|].
  simpl in Hc, Ht.
  rewrite (bindField_actions name tg _ _
             (match f0 with
              | VPtr pt None => actionsZero tag pt
              | VPtr _ (Some x) => callActions (actionsKind tag) x
              | _ => callActions (actionsKind tag) f0
              end) prev w).
  - apply andThen_runs. exact IH.
  - intros p w0. destruct f0 as [| | | | |e [x|]|]; try apply Hc.
    + apply Ht.
    + apply bindEnvsZero_actions.
Qed.

Lemma walk_actions (v : value) : kind_ok json_Unmarshal tag v /\ call_ok json_Unmarshal tag v /\ target_ok json_Unmarshal tag v.
Proof.
  induction v using value_nested_ind;
    try (split; [|split]; [intros ? ? ?; reflexivity | intros ? ?; reflexivity | exact I]).
  - (* struct *)
    assert (K : kind_ok json_Unmarshal tag (VStruct fs)).
    { intros in_ prev w. apply struct_loop_actions.
      eapply Forall_impl; [|exact H]. intros f Hf. split; apply Hf. }
    split; [exact K | split; [intros prev w; apply K | exact I]].
  - (* map *)
    assert (K : kind_ok json_Unmarshal tag (VMap k e es)).
    { intros in_ prev w. apply map_loop_actions.
      eapply Forall_impl; [|exact H]. intros f Hf. apply Hf. }
    split; [exact K | split; [intros prev w; apply K | exact I]].
  - (* pointer *)
    destruct IHv as (K & C & _).
    split; [intros ? ? ?; reflexivity | split; [intros prev w; apply K | exact C]].
  - (* interface *)
    destruct IHv as (K & C & _).
    split; [intros ? ? ?; reflexivity | split; [|exact I]].
    intros prev w. destruct v as [| | | | |e [x|]|]; try apply K; try reflexivity.
    apply (C prev w).
Qed.

(** [bindEnvs] performs the bindings of [actions], in order, and panics
    exactly when [actions] is undefined. *)
Lemma bindEnvs_actions (in_ : value) (prev : list string) (w : world) :
  bindEnvs json_Unmarshal tag in_ prev w
  = runs json_Unmarshal (actions tag in_ prev) w.
Proof.
  unfold bindEnvs, actions.
  destruct in_ as [| | | | |e [x|]|]; try apply walk_actions; reflexivity.
Qed.

End Factor.

(** ** Names of environment variables *)

Section Names.

Import Strings.

Lemma map_string_app f a b : map_string f (a ++ b) = map_string f a ++ map_string f b.
Proof. induction a as [|c a IH]; simpl; [reflexivity | now rewrite IH]. Qed.

Lemma upper_ascii_idem c : upper_ascii (upper_ascii c) = upper_ascii c.
Proof. destruct c as [[] [] [] [] [] [] [] []]; reflexivity. Qed.

Lemma upper_replace_ascii c :
  upper_ascii (replace_ascii "." "_" c) = replace_ascii "." "_" (upper_ascii c).
Proof. destruct c as [[] [] [] [] [] [] [] []]; reflexivity. Qed.

Lemma ToUpper_idem s : ToUpper (ToUpper s) = ToUpper s.
Proof.
  induction s as [|c s IH]; simpl; [reflexivity|].
  unfold ToUpper in *. simpl. now rewrite upper_ascii_idem, IH.
Qed.


Lemma ToUpper_Replace s : ToUpper (Replace "." "_" s) = Replace "." "_" (ToUpper s).
Proof.
  induction s as [|c s IH]; [reflexivity|].
  unfold ToUpper, Replace in *. simpl. now rewrite upper_replace_ascii, IH.
Qed.

Lemma Replace_app o n a b : Replace o n (a ++ b) = Replace o n a ++ Replace o n b.
Proof. apply map_string_app. Qed.

Lemma Replace_free o n s : free_of o s = true -> Replace o n s = s.
Proof.
  induction s as [|c s IH]; simpl; [reflexivity|].
  intros H. apply andb_prop in H. destruct H as [Hc Hs].
  unfold Replace in *. simpl. unfold replace_ascii at 1.
  apply negb_true_iff in Hc. rewrite Hc. now rewrite IH.
Qed.

Lemma Join_cons x y l sep : Join (x :: y :: l) sep = x ++ sep ++ Join (y :: l) sep.
Proof. reflexivity. Qed.



Lemma free_of_ToUpper s : free_of "." (ToUpper s) = free_of "." s.
Proof.
  induction s as [|c s IH]; [reflexivity|].
  unfold ToUpper in *. simpl. rewrite IH. f_equal.
  destruct c as [[] [] [] [] [] [] [] []]; reflexivity.
Qed.

(** The name the store reads for a bound key and the name a sequence
    binding computes agree when the prefix holds no separator. *)
Lemma envName_sliceKey (v : Viper) (key : string) :
  envKeyReplacer v = Some ("."%char, "_"%char) ->
  dotFree (envPrefix v) ->
  Store.envName v (Store.mergeWithEnvPrefix v key) = sliceKey v key.
Proof.
  intros Hr Hp. unfold Store.envName, Store.mergeWithEnvPrefix, sliceKey. rewrite Hr.
  destruct (String.eqb (envPrefix v) "").
  - symmetry. apply ToUpper_Replace.
  - rewrite ToUpper_idem, <- ToUpper_Replace. f_equal.
    rewrite !Replace_app. now rewrite (Replace_free _ _ _ Hp).
Qed.


End Names.

(** ** Sequence bindings *)

Section Sequences.

Variable json_Unmarshal : string -> option data.
Variable json_UnmarshalInto : gotype -> string -> option data.

Lemma bindSlice_default in_ prev w :
  assoc (defaults (viper (bindSlice json_Unmarshal in_ prev w))) (Strings.Join prev ".")
  = Some in_.
Proof. simpl. now rewrite String.eqb_refl. Qed.

(** C7, as the code has it.  The direct path is taken by a sequence whose
    type is exactly [[]string] or [[]int]: the collected strings are joined
    by one space and written under the resolved name, and the sequence is
    registered as the default of the store key.  Every other sequence takes
    the structured path. *)
Theorem sequence_direct_path (el : gotype) (elems : list value)
    (prev : list string) (w : world) :
  let env := Strings.Join prev "." in
  let key := sliceKey (Store.BindEnv (viper w) env) env in
  let values := collect (environ w) key in
  let w' := bindSlice json_Unmarshal (VSlice el elems) prev w in
  assoc (defaults (viper w')) env = Some (VSlice el elems)
  /\ (el = TBasic String_ \/ el = TBasic Int ->
      environ w' = Os.Setenv (environ w) key (Strings.Join values " "))
  /\ (el <> TBasic String_ -> el <> TBasic Int ->
      environ w'
      = Os.Setenv (environ w) key
          (Json.Marshal (List.map (decodeElement json_Unmarshal) values))).
Proof.
  intros env key values w'. split; [apply bindSlice_default|]. split.
  - intros [-> | ->]; reflexivity.
  - intros Hs Hi. subst w'. unfold bindSlice.
    destruct el as [b| | | | | |]; try reflexivity.
    destruct b; try reflexivity; congruence.
Qed.

(** C8.  On the structured path every collected string is decoded on its
    own, one that is not JSON is kept as a string, and the whole list is
    written as one array under the resolved name; the hook hands its input
    back, without an error, when the text does not decode into the slice. *)
Theorem structured_path_keeps_raw (in_ : value) (prev : list string) (w : world) :
  supportedCast in_ = false ->
  let env := Strings.Join prev "." in
  let key := sliceKey (Store.BindEnv (viper w) env) env in
  let values := collect (environ w) key in
  environ (bindSlice json_Unmarshal in_ prev w)
  = Os.Setenv (environ w) key
      (Json.Marshal
         (List.map (fun str => match json_Unmarshal str with
                               | Some d => d
                               | None => JString str
                               end) values))
  /\ (forall t d s,
        Kind t = KindSlice -> foundText d = Some s -> json_UnmarshalInto t s = None ->
        SliceDecodeHook json_UnmarshalInto KindString t d = Some (Data d)).
Proof.
  intros Hc env key values. split.
  - unfold bindSlice. now rewrite Hc.
  - intros t d s Ht Hd Hj. unfold SliceDecodeHook. now rewrite Ht, Hd, Hj.
Qed.

End Sequences.

(** C7, as the specification words it, fails on a sequence of booleans:
    its two elements are written as a JSON array, not joined by a space. *)
Lemma bool_sequence_not_direct :
  let w := Demo.start (Demo.storeRead "") Demo.flagsEnv in
  environ (bindSlice Demo.json_Unmarshal Demo.flags ["flags"] w)
  = (Demo.flagsEnv ++ [("FLAGS", "[true,false]")])%list
  /\ environ (bindSlice Demo.json_Unmarshal Demo.flags ["flags"] w)
     <> Os.Setenv Demo.flagsEnv "FLAGS"
          (Strings.Join (collect Demo.flagsEnv "FLAGS") " ").
Proof. split; [reflexivity | discriminate]. Qed.

Lemma structured_path_keeps_raw_witness :
  let w := Demo.start (Demo.storeRead "") Demo.itemsEnv in
  environ (bindSlice Demo.json_Unmarshal Demo.items ["items"] w)
  = (Demo.itemsEnv ++ [("ITEMS", ("[" ++ Json.quote "oops" ++ ",7]")%string)])%list.
Proof.
  intros w.
  exact (proj1 (structured_path_keeps_raw Demo.json_Unmarshal Demo.json_UnmarshalInto
                  Demo.items ["items"] w eq_refl)).
Defined.


(** ** [Unmarshal] and the base source *)

Section Reading.

Variable json_Unmarshal : string -> option data.
Variable Decode : string -> Viper -> Os.environ -> value -> value * option error.

(** With a base source that loads or is absent, [Unmarshal] is the walk of
    the target the first decode left, run from the prepared state, and then
    the second decode. *)
Lemma Unmarshal_run (e : Enviper) (rawVal : value) (w : world) :
  (forall msg, configSource (viper w) <> SourceBroken msg) ->
  Unmarshal json_Unmarshal Decode e rawVal w
  = option_map (fun acts => finish Decode e rawVal w
                              (run json_Unmarshal acts (prepared w)))
      (actions (TagName e) (seen Decode e rawVal w) []).
Proof.
  intros Hsrc.
  assert (H : match snd (Store.ReadInConfig (viper w)) with
              | Some (ConfigError _) | Some (DecodeError _) => False
              | _ => True
              end).
  { unfold Store.ReadInConfig.
    destruct (configSource (viper w)) as [settings | | msg] eqn:E; simpl; auto.
    now destruct (Hsrc msg). }
  unfold Unmarshal, finish, prepared, seen, readEnvs.
  destruct (Store.ReadInConfig (viper w)) as [v err]. simpl in *.
  destruct err as [[| |]|]; try contradiction;
    rewrite bindEnvs_actions; unfold runs, log;
    (destruct (actions _ _ _) as [acts|]; simpl; [|reflexivity]);
    match goal with
    | |- context [let '(r, err) := ?d in _] => destruct d as [r2 err2]
    end; reflexivity.
Qed.

(** C3.  A base source that fails to load for any reason but its absence
    makes [Unmarshal] return that error with the store and the environment
    as they were and nothing but the load in the trace; an absent source
    lets it go on to the first decode, the walk and the second decode, whose
    error is the result. *)
Theorem read_failure_aborts (e : Enviper) (rawVal : value) (w : world) :
  (forall msg, configSource (viper w) = SourceBroken msg ->
     Unmarshal json_Unmarshal Decode e rawVal w
     = Some {| result := Some (ConfigError msg);
               rawVal' := rawVal;
               final := log w [EvReadInConfig] |})
  /\ (configSource (viper w) = SourceAbsent ->
      Unmarshal json_Unmarshal Decode e rawVal w
      = match readEnvs json_Unmarshal (TagName e)
                (fst (Decode (TagName e) (viper w) (environ w) rawVal))
                (log (log w [EvReadInConfig]) [EvDecode]) with
        | Some w2 =>
            Some {| result :=
                      snd (Decode (TagName e) (viper w2) (environ w2)
                             (fst (Decode (TagName e) (viper w) (environ w) rawVal)));
                    rawVal' :=
                      fst (Decode (TagName e) (viper w2) (environ w2)
                             (fst (Decode (TagName e) (viper w) (environ w) rawVal)));
                    final := log w2 [EvDecode] |}
        | None => None
        end).
Proof.
  split.
  - intros msg H. unfold Unmarshal, Store.ReadInConfig. rewrite H. reflexivity.
  - intros H. unfold Unmarshal, Store.ReadInConfig. rewrite H. simpl.
    destruct (readEnvs _ _ _ _) as [w2|]; [|reflexivity].
    destruct (Decode (TagName e) (viper w2) _ _) as [r2 err2]. reflexivity.
Qed.

End Reading.

(** ** What a run of bindings does to the state *)

Section RunFacts.

Variable json_Unmarshal : string -> option data.

Lemma sameSettings_refl v : sameSettings v v.
Proof. repeat split. Qed.

Lemma sameSettings_trans v1 v2 v3 :
  sameSettings v1 v2 -> sameSettings v2 v3 -> sameSettings v1 v3.
Proof. unfold sameSettings. intros (?&?&?&?) (?&?&?&?). repeat split; congruence. Qed.

Lemma BindEnv_settings v key : sameSettings v (Store.BindEnv v key).
Proof. unfold Store.BindEnv. destruct (String.eqb key ""); repeat split. Qed.

Lemma run1_settings w a : sameSettings (viper w) (viper (run1 json_Unmarshal w a)).
Proof.
  destruct a as [prev | in_ prev]; simpl.
  - apply BindEnv_settings.
  - destruct (BindEnv_settings (viper w) (Strings.Join prev ".")) as (?&?&?&?).
    repeat split; assumption.
Qed.

Lemma run_settings acts w : sameSettings (viper w) (viper (run json_Unmarshal acts w)).
Proof.
  revert w. induction acts as [|a acts IH]; intros w; [apply sameSettings_refl|].
  eapply sameSettings_trans; [apply run1_settings | apply IH].
Qed.

Lemma sliceKey_settings v v' key : sameSettings v v' -> sliceKey v' key = sliceKey v key.
Proof. intros (_&_&Hp&Hr). unfold sliceKey. now rewrite Hp, Hr. Qed.

Lemma boundName_settings v v' key : sameSettings v v' -> boundName v' key = boundName v key.
Proof.
  intros (_&_&Hp&Hr). unfold boundName, Store.envName, Store.mergeWithEnvPrefix.
  now rewrite Hp, Hr.
Qed.

Lemma run_cons a acts w :
  run json_Unmarshal (a :: acts) w = run json_Unmarshal acts (run1 json_Unmarshal w a).
Proof. reflexivity. Qed.

Lemma run_snoc acts a w :
  run json_Unmarshal (acts ++ [a]) w = run1 json_Unmarshal (run json_Unmarshal acts w) a.
Proof. unfold run. now rewrite fold_left_app. Qed.

(** The bindings the store holds after one more action. *)
Lemma run1_env w a :
  env (viper (run1 json_Unmarshal w a))
  = if String.eqb (keyOf a) "" then env (viper w)
    else (keyOf a, Store.mergeWithEnvPrefix (viper w) (keyOf a)) :: env (viper w).
Proof.
  destruct a as [prev | in_ prev]; simpl; unfold Store.BindEnv;
    destruct (String.eqb (Strings.Join prev ".") ""); reflexivity.
Qed.

Lemma merge_settings v v' key :
  sameSettings v v' -> Store.mergeWithEnvPrefix v' key = Store.mergeWithEnvPrefix v key.
Proof. intros (_&_&Hp&_). unfold Store.mergeWithEnvPrefix. now rewrite Hp. Qed.

(** A key the walk bound is bound to its own name. *)
Lemma run_bound acts w key :
  In key (List.map keyOf acts) -> key <> "" ->
  assoc (env (viper (run json_Unmarshal acts w))) key
  = Some (Store.mergeWithEnvPrefix (viper w) key).
Proof.
  intros Hin Hne. induction acts as [|a acts IH] using rev_ind; [contradiction|].
  rewrite run_snoc, run1_env.
  rewrite map_app in Hin. apply in_app_or in Hin.
  destruct (String.eqb (keyOf a) key) eqn:E.
  - apply String.eqb_eq in E. subst key.
    apply String.eqb_neq in Hne. rewrite Hne. simpl. rewrite String.eqb_refl.
    f_equal. apply merge_settings, run_settings.
  - destruct Hin as [Hin | [Hin | []]].
    + destruct (String.eqb (keyOf a) ""); simpl; [|rewrite E]; now apply IH.
    + subst key. now rewrite String.eqb_refl in E.
Qed.

Lemma run1_defaults w a key :
  (isSlice a = true -> keyOf a <> key) ->
  assoc (defaults (viper (run1 json_Unmarshal w a))) key = assoc (defaults (viper w)) key.
Proof.
  destruct a as [prev | in_ prev]; simpl; intros H.
  - unfold Store.BindEnv. now destruct (String.eqb (Strings.Join prev ".") "").
  - specialize (H eq_refl). apply String.eqb_neq in H. rewrite H.
    unfold Store.BindEnv. now destruct (String.eqb (Strings.Join prev ".") "").
Qed.

(** A key no sequence binding has keeps the default it had. *)
Lemma run_defaults acts w key :
  (forall a, In a acts -> isSlice a = true -> keyOf a <> key) ->
  assoc (defaults (viper (run json_Unmarshal acts w))) key = assoc (defaults (viper w)) key.
Proof.
  revert w. induction acts as [|a acts IH]; intros w H; [reflexivity|].
  rewrite run_cons, IH.
  - apply run1_defaults. apply H. now left.
  - intros b Hb. apply H. now right.
Qed.

Lemma LookupEnv_set_other e k v n :
  k <> n -> Os.LookupEnv (Os.set e k v) n = Os.LookupEnv e n.
Proof.
  intros Hne. induction e as [|[m x] r IH]; simpl.
  - apply String.eqb_neq in Hne. now rewrite Hne.
  - destruct (String.eqb m k) eqn:E; simpl.
    + apply String.eqb_eq in E. subst m.
      apply String.eqb_neq in Hne. now rewrite Hne.
    + destruct (String.eqb m n); [reflexivity | exact IH].
Qed.

Lemma LookupEnv_set_same e k v : Os.LookupEnv (Os.set e k v) k = Some v.
Proof.
  induction e as [|[m x] r IH]; simpl.
  - now rewrite String.eqb_refl.
  - destruct (String.eqb m k) eqn:E; simpl; rewrite E; [reflexivity | exact IH].
Qed.

Lemma LookupEnv_Setenv_other e k v n :
  k <> n -> Os.LookupEnv (Os.Setenv e k v) n = Os.LookupEnv e n.
Proof.
  intros Hne. unfold Os.Setenv.
  destruct (_ || _); [reflexivity | now apply LookupEnv_set_other].
Qed.

Lemma run1_lookup w a name :
  ~ writes (viper w) a name ->
  Os.LookupEnv (environ (run1 json_Unmarshal w a)) name = Os.LookupEnv (environ w) name.
Proof.
  destruct a as [prev | in_ prev]; simpl; intros H; [reflexivity|].
  apply LookupEnv_Setenv_other. intros E. apply H. split; [reflexivity|].
  simpl. rewrite <- E. symmetry. apply sliceKey_settings, BindEnv_settings.
Qed.

(** A variable no sequence binding writes keeps its value. *)
Lemma run_lookup acts w name :
  (forall a, In a acts -> ~ writes (viper w) a name) ->
  Os.LookupEnv (environ (run json_Unmarshal acts w)) name = Os.LookupEnv (environ w) name.
Proof.
  revert w. induction acts as [|a acts IH]; intros w H; [reflexivity|].
  rewrite run_cons, IH.
  - apply run1_lookup. apply H. now left.
  - intros b Hb [Hs Hk]. apply (H b (or_intror Hb)). split; [exact Hs|].
    rewrite <- Hk. symmetry. apply sliceKey_settings, run1_settings.
Qed.

(** The read of a key the walk bound. *)
Lemma bound_read acts w key :
  In key (List.map keyOf acts) -> key <> "" ->
  Store.find (viper (run json_Unmarshal acts w)) (environ (run json_Unmarshal acts w)) key
  = match Os.LookupEnv (environ (run json_Unmarshal acts w)) (boundName (viper w) key) with
    | Some s => Some (Store.FromEnv s)
    | None => baseOrDefault (viper (run json_Unmarshal acts w)) key
    end.
Proof.
  intros Hin Hne. unfold Store.find. rewrite (run_bound acts w key Hin Hne).
  unfold boundName.
  replace (Store.envName (viper (run json_Unmarshal acts w)))
    with (Store.envName (viper w)).
  - reflexivity.
  - unfold Store.envName. destruct (run_settings acts w) as (_&_&_&Hr). now rewrite Hr.
Qed.

End RunFacts.

(** ** Precedence of the environment, and its absence *)

Section Precedence.

Variable json_Unmarshal : string -> option data.
Variable Decode : string -> Viper -> Os.environ -> value -> value * option error.

Lemma Unmarshal_final (e : Enviper) (rawVal : value) (w : world) o acts :
  (forall msg, configSource (viper w) <> SourceBroken msg) ->
  Unmarshal json_Unmarshal Decode e rawVal w = Some o ->
  actions (TagName e) (seen Decode e rawVal w) [] = Some acts ->
  viper (final o) = viper (run json_Unmarshal acts (prepared w))
  /\ environ (final o) = environ (run json_Unmarshal acts (prepared w)).
Proof.
  intros Hsrc U A. rewrite (Unmarshal_run _ _ _ _ _ Hsrc), A in U. simpl in U.
  injection U as <-. split; reflexivity.
Qed.

Lemma not_writes (v : Viper) (acts : list action) (name : string) :
  (forall a, In a acts -> isSlice a = true -> sliceKey v (keyOf a) <> name) ->
  forall a, In a acts -> ~ writes v a name.
Proof. intros H a Ha [Hs Hk]. exact (H a Ha Hs Hk). Qed.

(** The final read of a key the walk bound. *)
Lemma final_read (e : Enviper) (rawVal : value) (w : world)
    (o : outcome) (acts : list action) (key : string) :
  (forall msg, configSource (viper w) <> SourceBroken msg) ->
  Unmarshal json_Unmarshal Decode e rawVal w = Some o ->
  actions (TagName e) (seen Decode e rawVal w) [] = Some acts ->
  In key (List.map keyOf acts) -> key <> "" ->
  Store.find (viper (final o)) (environ (final o)) key
  = match Os.LookupEnv (environ (final o)) (boundName (viper (prepared w)) key) with
    | Some s => Some (Store.FromEnv s)
    | None => baseOrDefault (viper (final o)) key
    end.
Proof.
  intros Hsrc U A Hin Hne.
  destruct (Unmarshal_final e rawVal w o acts Hsrc U A) as [-> ->].
  apply (bound_read json_Unmarshal acts (prepared w) key Hin Hne).
Qed.

(** A variable no sequence binding of the walk writes is, at the final
    decode, what it was at the call. *)
Lemma final_lookup (e : Enviper) (rawVal : value) (w : world)
    (o : outcome) (acts : list action) (name : string) :
  (forall msg, configSource (viper w) <> SourceBroken msg) ->
  Unmarshal json_Unmarshal Decode e rawVal w = Some o ->
  actions (TagName e) (seen Decode e rawVal w) [] = Some acts ->
  (forall a, In a acts -> isSlice a = true ->
     sliceKey (viper (prepared w)) (keyOf a) <> name) ->
  Os.LookupEnv (environ (final o)) name = Os.LookupEnv (environ w) name.
Proof.
  intros Hsrc U A Hw.
  destruct (Unmarshal_final e rawVal w o acts Hsrc U A) as [_ ->].
  apply (run_lookup json_Unmarshal acts (prepared w) name (not_writes _ _ _ Hw)).
Qed.

(** C1, as the code has it.  For a key the walk bound, whose variable is set
    in the process environment and is not the variable a sequence binding of
    the same walk writes, the final read of the store yields the value of the
    variable, whatever the base source holds for the key. *)
Theorem env_wins_over_base (e : Enviper) (rawVal : value) (w : world)
    (o : outcome) (acts : list action) (key s : string) :
  (forall msg, configSource (viper w) <> SourceBroken msg) ->
  Unmarshal json_Unmarshal Decode e rawVal w = Some o ->
  actions (TagName e) (seen Decode e rawVal w) [] = Some acts ->
  In key (List.map keyOf acts) -> key <> "" ->
  (forall a, In a acts -> isSlice a = true ->
     sliceKey (viper (prepared w)) (keyOf a) <> boundName (viper (prepared w)) key) ->
  Os.LookupEnv (environ w) (boundName (viper (prepared w)) key) = Some s ->
  Store.find (viper (final o)) (environ (final o)) key = Some (Store.FromEnv s).
Proof.
  intros Hsrc U A Hin Hne Hw Hset.
  rewrite (final_read e rawVal w o acts key Hsrc U A Hin Hne).
  rewrite (final_lookup e rawVal w o acts _ Hsrc U A Hw).
  now rewrite Hset.
Qed.

(** C2, as the code has it.  For a key the walk bound in its [default] case,
    whose variable is unset in the process environment, and which no
    sequence binding of the same walk has as its key or writes the variable
    of, the final read of the store yields what the base source holds for
    the key, or else its default. *)
Theorem unset_variable_keeps_base (e : Enviper) (rawVal : value) (w : world)
    (o : outcome) (acts : list action) (prev : list string) :
  let key := Strings.Join prev "." in
  (forall msg, configSource (viper w) <> SourceBroken msg) ->
  Unmarshal json_Unmarshal Decode e rawVal w = Some o ->
  actions (TagName e) (seen Decode e rawVal w) [] = Some acts ->
  In (ADefault prev) acts -> key <> "" ->
  (forall a, In a acts -> isSlice a = true ->
     keyOf a <> key
     /\ sliceKey (viper (prepared w)) (keyOf a) <> boundName (viper (prepared w)) key) ->
  Os.LookupEnv (environ w) (boundName (viper (prepared w)) key) = None ->
  Store.find (viper (final o)) (environ (final o)) key
  = baseOrDefault (fst (Store.ReadInConfig (viper w))) key.
Proof.
  intros key Hsrc U A Hin Hne Hw Hunset.
  destruct (Unmarshal_final e rawVal w o acts Hsrc U A) as [-> ->].
  assert (Hk : In key (List.map keyOf acts)).
  { change key with (keyOf (ADefault prev)). now apply in_map. }
  rewrite (bound_read json_Unmarshal acts (prepared w) key Hk Hne).
  rewrite (run_lookup json_Unmarshal acts (prepared w)).
  - change (environ (prepared w)) with (environ w). rewrite Hunset. unfold baseOrDefault.
    destruct (run_settings json_Unmarshal acts (prepared w)) as (_&Hc&_&_).
    rewrite Hc, (run_defaults json_Unmarshal acts (prepared w) key).
    + reflexivity.
    + intros a Ha Hs. now apply Hw.
  - apply not_writes. intros a Ha Hs. now apply Hw.
Qed.

End Precedence.

Lemma env_wins_over_base_witness :
  exists o,
    Unmarshal Demo.json_Unmarshal Demo.Decode New Demo.port
      (Demo.start (Demo.store Demo.portBase "") Demo.portEnv) = Some o
    /\ Store.find (viper (final o)) (environ (final o)) "Port" = Some (Store.FromEnv "2").
Proof.
  eexists. split; [reflexivity|].
  eapply (env_wins_over_base Demo.json_Unmarshal Demo.Decode New Demo.port
            (Demo.start (Demo.store Demo.portBase "") Demo.portEnv)
            _ [ADefault ["Port"]] "Port" "2").
  - intros msg. discriminate.
  - reflexivity.
  - reflexivity.
  - left. reflexivity.
  - discriminate.
  - intros a [<- | []]. discriminate.
  - reflexivity.
Defined.

Lemma unset_variable_keeps_base_witness :
  exists o,
    Unmarshal Demo.json_Unmarshal Demo.Decode New Demo.port
      (Demo.start (Demo.store Demo.portBase "") []) = Some o
    /\ Store.find (viper (final o)) (environ (final o)) "Port"
       = Some (Store.FromConfig (JNumber "1")).
Proof.
  eexists. split; [reflexivity|].
  eapply (unset_variable_keeps_base Demo.json_Unmarshal Demo.Decode New Demo.port
            (Demo.start (Demo.store Demo.portBase "") [])
            _ [ADefault ["Port"]] ["Port"]).
  - intros msg. discriminate.
  - reflexivity.
  - reflexivity.
  - left. reflexivity.
  - discriminate.
  - intros a [<- | []]. discriminate.
  - reflexivity.
Defined.

(** C1, as the specification words it, fails on a sequence key: the base
    source sets [Items], the variable [ITEMS] is set, and the final read
    yields neither, but the array the binding made of [ITEMS_1] and wrote
    over the variable. *)
Lemma sequence_variable_overwritten :
  option_map (fun o => Store.find (viper (final o)) (environ (final o)) "Items")
    (Unmarshal Demo.json_Unmarshal Demo.Decode New Demo.itemsOf
       (Demo.start (Demo.store Demo.itemsBase "") [("ITEMS", "[]"); ("ITEMS_1", "false")]))
  = Some (Some (Store.FromEnv "[false]"))
  /\ Os.LookupEnv [("ITEMS", "[]"); ("ITEMS_1", "false")]
       (boundName (Demo.storeRead "") "Items") = Some "[]"
  /\ assoc [("Items", JArray [JBool true])] "Items" = Some (JArray [JBool true]).
Proof. repeat split. Qed.

(** C2, as the specification words it, fails on a sequence field: the
    variable [ITEMS] is unset, and the final read of [Items] is not what the
    base source holds but the array the binding made of [ITEMS_1]; with no
    variable at all it is the empty array. *)
Lemma unset_sequence_loses_base :
  Os.LookupEnv [("ITEMS_1", "false")] (boundName (Demo.storeRead "") "Items") = None
  /\ option_map (fun o => Store.find (viper (final o)) (environ (final o)) "Items")
       (Unmarshal Demo.json_Unmarshal Demo.Decode New Demo.itemsOf
          (Demo.start (Demo.store Demo.itemsBase "") [("ITEMS_1", "false")]))
     = Some (Some (Store.FromEnv "[false]"))
  /\ option_map (fun o => Store.find (viper (final o)) (environ (final o)) "Items")
       (Unmarshal Demo.json_Unmarshal Demo.Decode New Demo.itemsOf
          (Demo.start (Demo.store Demo.itemsBase "") []))
     = Some (Some (Store.FromEnv "[]"))
  /\ baseOrDefault (fst (Store.ReadInConfig (Demo.store Demo.itemsBase ""))) "Items"
     = Some (Store.FromConfig (JArray [JBool true])).
Proof. repeat split. Qed.

(** ** The sequence merge *)

Section SequenceMerge.

Variable json_Unmarshal : string -> option data.
Variable json_UnmarshalInto : gotype -> string -> option data.
Variable Decode : string -> Viper -> Os.environ -> value -> value * option error.

Lemma free_of_app c a b :
  Strings.free_of c (a ++ b) = Strings.free_of c a && Strings.free_of c b.
Proof. induction a as [|x a IH]; simpl; [reflexivity | now rewrite IH, andb_assoc]. Qed.

Lemma before_eq_entry name val :
  Strings.free_of "="%char name = true ->
  Strings.before_eq (name ++ "=" ++ val) = name.
Proof.
  change ("=" ++ val) with (String "="%char val).
  induction name as [|x a IH]; simpl; [reflexivity|].
  intros H. apply andb_prop in H. destruct H as [Hx Ha].
  apply negb_true_iff in Hx. rewrite Hx. now rewrite IH.
Qed.

Lemma Setenv_valid e name val :
  validName name -> Os.Setenv e name val = Os.set e name val.
Proof.
  intros [Hne Hf]. unfold Os.Setenv. apply String.eqb_neq in Hne. now rewrite Hne, Hf.
Qed.

Lemma run_environ_no_slice acts w :
  Forall (fun a => isSlice a = false) acts ->
  environ (run json_Unmarshal acts w) = environ w.
Proof.
  intros H. revert w. induction H as [|a acts Ha _ IH]; intros w; [reflexivity|].
  rewrite run_cons, IH. destruct a; [reflexivity | discriminate].
Qed.

Lemma no_slice_no_writes v acts name :
  Forall (fun a => isSlice a = false) acts ->
  forall a, In a acts -> ~ writes v a name.
Proof.
  intros H a Ha [Hs _]. rewrite Forall_forall in H. rewrite (H a Ha) in Hs. discriminate.
Qed.

End SequenceMerge.

(** ** Empty pointer fields *)

Section EmptyPointers.

Variable json_Unmarshal : string -> option data.
Variable Decode : string -> Viper -> Os.environ -> value -> value * option error.
Variable tag : string.

(** The walk of the zero value of a type: what [bindEnvsZero] stands for. *)
Lemma actionsZero_zero (t : gotype) :
  forall prev, actionsZero tag t prev = actions tag (zero t) prev.
Proof.
  induction t using gotype_nested_ind; intros prev; try reflexivity.
  unfold actions. simpl.
    induction H as [|[[[name tg] ex] ft] rest Hd _ IH]; [reflexivity|].
    simpl. rewrite IH. f_equal. simpl in Hd.
    destruct ft as [b| | | | | |]; try reflexivity;
      unfold fieldActions;
      destruct (tagAction (assoc tg tag) name); try reflexivity;
      destruct ex; try reflexivity; apply Hd.
Qed.

Lemma bindEnvsZero_zero (t : gotype) (prev : list string) (w : world) :
  bindEnvsZero json_Unmarshal tag t prev w = bindEnvs json_Unmarshal tag (zero t) prev w.
Proof. now rewrite bindEnvsZero_actions, bindEnvs_actions, actionsZero_zero. Qed.

Lemma andThen_nil k : andThen (Some []) k = k.
Proof. now destruct k. Qed.

Lemma andThen_assoc a b c : andThen (andThen a b) c = andThen a (andThen b c).
Proof.
  destruct a as [x|], b as [y|], c as [z|]; simpl; try reflexivity.
  now rewrite app_assoc.
Qed.

Lemma andThen_Some a b acts :
  andThen a b = Some acts -> exists x y, a = Some x /\ b = Some y /\ acts = (x ++ y)%list.
Proof.
  destruct a as [x|], b as [y|]; simpl; try discriminate.
  intros H. injection H as <-. now exists x, y.
Qed.

Lemma struct_actions_app fs1 fs2 in_ prev :
  actionsKind tag (VStruct (fs1 ++ fs2)) in_ prev
  = andThen (actionsKind tag (VStruct fs1) in_ prev) (actionsKind tag (VStruct fs2) in_ prev).
Proof.
  induction fs1 as [|[[[name tg] ex] f0] rest IH].
  - simpl app. symmetry. apply andThen_nil.
  - simpl in *. rewrite IH. symmetry. apply andThen_assoc.
Qed.

End EmptyPointers.

(** ** Variables the walk does not consult *)

Section Unconsulted.

Variable json_Unmarshal : string -> option data.
Variable N : string -> bool.

Lemma differOnly_lookup e1 e2 n :
  differOnly N e1 e2 -> N n = false -> Os.LookupEnv e1 n = Os.LookupEnv e2 n.
Proof.
  intros H Hn. induction H as [|[n1 v1] [n2 v2] r1 r2 [Hf Hv] _ IH]; [reflexivity|].
  simpl in *. subst n2. destruct (String.eqb n1 n) eqn:E; [|exact IH].
  apply String.eqb_eq in E. subst n1. now rewrite (Hv Hn).
Qed.

Lemma differOnly_set e1 e2 k v :
  differOnly N e1 e2 -> differOnly N (Os.set e1 k v) (Os.set e2 k v).
Proof.
  intros H. induction H as [|[n1 v1] [n2 v2] r1 r2 [Hf Hv] Hr IH]; simpl.
  - constructor; [now split | constructor].
  - simpl in *. subst n2. destruct (String.eqb n1 k).
    + constructor; [now split | exact Hr].
    + constructor; [now split | exact IH].
Qed.

Lemma differOnly_Setenv e1 e2 k v :
  differOnly N e1 e2 -> differOnly N (Os.Setenv e1 k v) (Os.Setenv e2 k v).
Proof.
  intros H. unfold Os.Setenv. destruct (_ || _); [exact H | now apply differOnly_set].
Qed.

Lemma wfEnv_set e k v :
  Strings.free_of "="%char k = true -> wfEnv e -> wfEnv (Os.set e k v).
Proof.
  intros Hk H. induction H as [|[n x] r Hn Hr IH]; simpl.
  - constructor; [exact Hk | constructor].
  - destruct (String.eqb n k); constructor; auto.
Qed.

Lemma wfEnv_Setenv e k v : wfEnv e -> wfEnv (Os.Setenv e k v).
Proof.
  intros H. unfold Os.Setenv.
  destruct (String.eqb k ""); [exact H|]. simpl.
  destruct (Strings.free_of "="%char k) eqn:E; simpl; [now apply wfEnv_set | exact H].
Qed.

(** Entries of the picked variables that no scan matches do not show in the
    names a scan finds. *)
Lemma matching_differOnly e1 e2 key :
  differOnly N e1 e2 -> wfEnv e1 ->
  (forall name val, N name = true ->
     Strings.HasPrefix (name ++ "=" ++ val) (key ++ "_") = false) ->
  matching e1 key = matching e2 key
  /\ Forall (fun n => N n = false) (matching e1 key).
Proof.
  intros H Hwf Hs. unfold matching, Os.Environ.
  induction H as [|[n1 v1] [n2 v2] r1 r2 [Hf Hv] _ IH]; [split; [reflexivity | constructor]|].
  simpl in *. subst n2. inversion Hwf as [|? ? Hn Hr]; subst. simpl in Hn.
  destruct (IH Hr) as [IH1 IH2].
  destruct (N n1) eqn:En.
  - rewrite !(Hs n1 _ En). now split.
  - rewrite <- (Hv eq_refl).
    destruct (Strings.HasPrefix _ _); simpl.
    + pose proof (before_eq_entry n1 v1 Hn) as Hb. simpl in Hb. rewrite Hb.
      split; [now rewrite IH1 | now constructor].
    + now split.
Qed.

Lemma bindSlice_differOnly in_ prev w1 w2 :
  viper w1 = viper w2 ->
  differOnly N (environ w1) (environ w2) -> wfEnv (environ w1) ->
  (forall name val, N name = true ->
     Strings.HasPrefix (name ++ "=" ++ val)
       (sliceKey (viper w1) (Strings.Join prev ".") ++ "_") = false) ->
  viper (bindSlice json_Unmarshal in_ prev w1) = viper (bindSlice json_Unmarshal in_ prev w2)
  /\ differOnly N (environ (bindSlice json_Unmarshal in_ prev w1))
       (environ (bindSlice json_Unmarshal in_ prev w2)).
Proof.
  intros Hv Hd Hwf Hs. unfold bindSlice. cbn [viper environ]. rewrite <- Hv.
  split; [reflexivity|].
  set (key := sliceKey (Store.BindEnv (viper w1) (Strings.Join prev ".")) (Strings.Join prev ".")).
  assert (Hkey : key = sliceKey (viper w1) (Strings.Join prev ".")).
  { apply sliceKey_settings, BindEnv_settings. }
  rewrite <- Hkey in Hs.
  destruct (matching_differOnly _ _ key Hd Hwf Hs) as [Hm HN].
  rewrite <- Hm.
  assert (Hval : List.map (Os.Getenv (environ w1)) (matching (environ w1) key)
                 = List.map (Os.Getenv (environ w2)) (matching (environ w1) key)).
  { apply map_ext_in. intros n Hn. rewrite Forall_forall in HN. unfold Os.Getenv.
    now rewrite (differOnly_lookup _ _ n Hd (HN n Hn)). }
  rewrite <- Hval. now apply differOnly_Setenv.
Qed.

Lemma run1_wfEnv w a : wfEnv (environ w) -> wfEnv (environ (run1 json_Unmarshal w a)).
Proof. destruct a; simpl; [auto | apply wfEnv_Setenv]. Qed.

(** Two runs of the same bindings, from states that differ in the values of
    unscanned variables only, end in such states. *)
Lemma run_differOnly acts w1 w2 :
  viper w1 = viper w2 ->
  differOnly N (environ w1) (environ w2) -> wfEnv (environ w1) ->
  unscanned N (viper w1) acts ->
  viper (run json_Unmarshal acts w1) = viper (run json_Unmarshal acts w2)
  /\ differOnly N (environ (run json_Unmarshal acts w1)) (environ (run json_Unmarshal acts w2)).
Proof.
  revert w1 w2. induction acts as [|a acts IH]; intros w1 w2 Hv Hd Hwf Hs; [now split|].
  rewrite !run_cons.
  assert (H1 : viper (run1 json_Unmarshal w1 a) = viper (run1 json_Unmarshal w2 a)
               /\ differOnly N (environ (run1 json_Unmarshal w1 a))
                    (environ (run1 json_Unmarshal w2 a))).
  { destruct a as [prev | in_ prev].
    - simpl. now rewrite Hv.
    - apply bindSlice_differOnly; auto.
      intros name val Hn. apply (Hs (ASlice in_ prev)); auto. now left. }
  destruct H1 as [Hv1 Hd1]. apply IH; auto.
  - now apply run1_wfEnv.
  - intros b Hb Hsl name val Hn.
    rewrite (sliceKey_settings _ _ _ (run1_settings json_Unmarshal w1 a)).
    apply (Hs b); auto. now right.
Qed.

End Unconsulted.

(** ** Skipped fields *)

Section Skipped.

Variable json_Unmarshal : string -> option data.
Variable json_UnmarshalInto : gotype -> string -> option data.
Variable Decode : string -> Viper -> Os.environ -> value -> value * option error.

(** A field whose tag says skip adds nothing to the bindings of its struct,
    whatever it holds. *)
Lemma skipped_field_actions tag fs1 fs2 name tg exported f0 in_ prev :
  tagAction (assoc tg tag) name = Skip ->
  actionsKind tag (VStruct (fs1 ++ (name, tg, exported, f0) :: fs2)) in_ prev
  = actionsKind tag (VStruct (fs1 ++ fs2)) in_ prev.
Proof.
  intros Ht. rewrite !struct_actions_app. f_equal.
  change (actionsKind tag (VStruct ((name, tg, exported, f0) :: fs2)) in_ prev)
    with (andThen (fieldActions tag name tg
                     (match f0 with VPtr _ None => true | _ => exported end)
                     (match f0 with
                      | VPtr pt None => actionsZero tag pt
                      | VPtr _ (Some x) => callActions (actionsKind tag) x
                      | _ => callActions (actionsKind tag) f0
                      end) prev)
            (actionsKind tag (VStruct fs2) in_ prev)).
  unfold fieldActions. rewrite Ht. apply andThen_nil.
Qed.

Lemma decoded_ext (w1 w2 : world) t key :
  viper w1 = viper w2 ->
  Store.find (viper w1) (environ w1) key = Store.find (viper w2) (environ w2) key ->
  decoded json_UnmarshalInto w1 t key = decoded json_UnmarshalInto w2 t key.
Proof. intros Hv Hf. unfold decoded, Store.Get. now rewrite Hf, Hv. Qed.

(** C5, as the code has it.  A field whose tag has the name part [-] before
    a comma produces no binding, whatever it holds: the bindings of the
    struct are those of the struct without the field.  And two environments
    that differ only in the values of variables no sequence binding of the
    walk scans give every key of the walk whose own variable is not among
    them the same final decoded value. *)
Theorem skipped_field_has_no_effect (e : Enviper) (rawVal : value) (w1 w2 : world)
    (o1 o2 : outcome) (acts : list action) (N : string -> bool)
    (fs1 fs2 : list (string * StructTag * bool * value))
    (name : string) (tg : StructTag) (exported : bool) (f0 : value) :
  let fs := (fs1 ++ (name, tg, exported, f0) :: fs2)%list in
  tagAction (assoc tg (TagName e)) name = Skip ->
  (forall msg, configSource (viper w1) <> SourceBroken msg) ->
  viper w1 = viper w2 ->
  differOnly N (environ w1) (environ w2) -> wfEnv (environ w1) ->
  Unmarshal json_Unmarshal Decode e rawVal w1 = Some o1 ->
  Unmarshal json_Unmarshal Decode e rawVal w2 = Some o2 ->
  (seen Decode e rawVal w1 = VStruct fs
   \/ exists t, seen Decode e rawVal w1 = VPtr t (Some (VStruct fs))) ->
  seen Decode e rawVal w2 = seen Decode e rawVal w1 ->
  actions (TagName e) (seen Decode e rawVal w1) [] = Some acts ->
  unscanned N (viper (prepared w1)) acts ->
  actionsKind (TagName e) (VStruct (fs1 ++ fs2)) (seen Decode e rawVal w1) [] = Some acts
  /\ forall key t,
       In key (List.map keyOf acts) -> key <> "" ->
       N (boundName (viper (prepared w1)) key) = false ->
       decoded json_UnmarshalInto (final o1) t key
       = decoded json_UnmarshalInto (final o2) t key.
Proof.
  intros fs Ht Hsrc Hv Hd Hwf U1 U2 Hseen Hseen2 A Hs. split.
  - rewrite <- (skipped_field_actions _ fs1 fs2 name tg exported f0 _ [] Ht), <- A.
    destruct Hseen as [E | [t E]]; rewrite E; reflexivity.
  - intros key t Hin Hne Hn.
    assert (Hsrc2 : forall msg, configSource (viper w2) <> SourceBroken msg).
    { now rewrite <- Hv. }
    assert (A2 : actions (TagName e) (seen Decode e rawVal w2) [] = Some acts).
    { now rewrite Hseen2. }
    destruct (Unmarshal_final json_Unmarshal Decode e rawVal w1 o1 acts Hsrc U1 A) as [V1 E1].
    destruct (Unmarshal_final json_Unmarshal Decode e rawVal w2 o2 acts Hsrc2 U2 A2) as [V2 E2].
    assert (Hp : viper (prepared w1) = viper (prepared w2)).
    { unfold prepared. simpl. now rewrite Hv. }
    destruct (run_differOnly json_Unmarshal N acts (prepared w1) (prepared w2) Hp Hd Hwf Hs)
      as [Rv Rd].
    apply decoded_ext; [congruence|].
    rewrite V1, V2, E1, E2.
    rewrite !(bound_read json_Unmarshal acts _ key Hin Hne).
    rewrite <- Hp, <- Rv.
    now rewrite (differOnly_lookup N _ _ _ Rd Hn).
Qed.

End Skipped.

Lemma skipped_field_has_no_effect_witness :
  exists o1 o2,
    Unmarshal Demo.json_Unmarshal Demo.Decode New Demo.portSecret
      (Demo.start (Demo.store SourceAbsent "") [("SECRET", "a"); ("PORT", "2")]) = Some o1
    /\ Unmarshal Demo.json_Unmarshal Demo.Decode New Demo.portSecret
         (Demo.start (Demo.store SourceAbsent "") [("SECRET", "b"); ("PORT", "2")]) = Some o2
    /\ decoded Demo.json_UnmarshalInto (final o1) (TBasic Int) "Port"
       = decoded Demo.json_UnmarshalInto (final o2) (TBasic Int) "Port".
Proof.
  eexists. eexists. split; [reflexivity | split; [reflexivity|]].
  eapply (fun H1 H2 H3 H4 H5 H6 H7 H8 H9 H10 H11 =>
            proj2 (skipped_field_has_no_effect
              Demo.json_Unmarshal Demo.json_UnmarshalInto Demo.Decode New Demo.portSecret
              (Demo.start (Demo.store SourceAbsent "") [("SECRET", "a"); ("PORT", "2")])
              (Demo.start (Demo.store SourceAbsent "") [("SECRET", "b"); ("PORT", "2")])
              _ _ [ADefault ["Port"]] Demo.isSecret
              [("Port", [], true, VBasic Int "0")] []
              "Secret" Demo.skipTag true (VBasic String_ "")
              H1 H2 H3 H4 H5 H6 H7 H8 H9 H10 H11) "Port" (TBasic Int)).
  - reflexivity.
  - intros msg. discriminate.
  - reflexivity.
  - repeat constructor; simpl; intros; discriminate.
  - repeat constructor.
  - reflexivity.
  - reflexivity.
  - left. reflexivity.
  - reflexivity.
  - reflexivity.
  - intros a [<- | []]. discriminate.
  - left. reflexivity.
  - discriminate.
  - reflexivity.
Defined.

(** C5, as the specification words it, fails when a sequence binding scans
    the would-be variable of the skipped field: [List_X] is skipped, yet the
    value of [LIST_X] is the element the walk collects for [List]. *)
Lemma skipped_variable_scanned :
  tagAction (assoc Demo.skipTag (TagName New)) "List_X" = Skip
  /\ option_map
       (fun o => decoded Demo.json_UnmarshalInto (final o) (TSlice (TBasic String_)) "List")
       (Unmarshal Demo.json_Unmarshal Demo.Decode New Demo.listSkip
          (Demo.start (Demo.store SourceAbsent "") [("LIST_X", "a")]))
     = Some (Some (Data (Store.FromEnvFields ["a"])))
  /\ option_map
       (fun o => decoded Demo.json_UnmarshalInto (final o) (TSlice (TBasic String_)) "List")
       (Unmarshal Demo.json_Unmarshal Demo.Decode New Demo.listSkip
          (Demo.start (Demo.store SourceAbsent "") [("LIST_X", "b")]))
     = Some (Some (Data (Store.FromEnvFields ["b"]))).
Proof. repeat split. Qed.

(** ** Running [Unmarshal] twice *)


Section Twice.

Variable json_Unmarshal : string -> option data.
Variable json_UnmarshalInto : gotype -> string -> option data.
Variable Decode : string -> Viper -> Os.environ -> value -> value * option error.

Lemma Environ_filter_set (P : string -> bool) x k t :
  (forall val, P (k ++ "=" ++ val) = false) ->
  List.filter P (Os.Environ (Os.set x k t)) = List.filter P (Os.Environ x).
Proof.
  intros H. induction x as [|[n v] r IH].
  - change (List.filter P [k ++ "=" ++ t] = []). cbn [List.filter]. now rewrite H.
  - cbn [Os.set]. destruct (String.eqb n k) eqn:E.
    + apply String.eqb_eq in E. subst n.
      change (List.filter P ((k ++ "=" ++ t) :: Os.Environ r)
              = List.filter P ((k ++ "=" ++ v) :: Os.Environ r)).
      cbn [List.filter]. now rewrite !H.
    + change (List.filter P ((n ++ "=" ++ v) :: Os.Environ (Os.set r k t))
              = List.filter P ((n ++ "=" ++ v) :: Os.Environ r)).
      cbn [List.filter]. now rewrite IH.
Qed.

Lemma matching_set x k t key :
  (forall val, Strings.HasPrefix (k ++ "=" ++ val) (key ++ "_") = false) ->
  matching (Os.set x k t) key = matching x key.
Proof.
  intros H. unfold matching. f_equal.
  now apply (Environ_filter_set (fun s => Strings.HasPrefix s (key ++ "_"))).
Qed.

Lemma matching_Setenv x k t key :
  (forall val, Strings.HasPrefix (k ++ "=" ++ val) (key ++ "_") = false) ->
  matching (Os.Setenv x k t) key = matching x key.
Proof.
  intros H. unfold Os.Setenv. destruct (_ || _); [reflexivity | now apply matching_set].
Qed.

Lemma in_matching x key n :
  wfEnv x -> In n (matching x key) ->
  exists val, Strings.HasPrefix (n ++ "=" ++ val) (key ++ "_") = true.
Proof.
  intros Hwf. unfold matching, Os.Environ.
  induction Hwf as [|[m v] r Hm _ IH]; simpl; [contradiction|].
  destruct (Strings.HasPrefix (m ++ String "="%char v) (key ++ "_")) eqn:E; simpl.
  - pose proof (before_eq_entry m v Hm) as Hb. simpl in Hb. rewrite Hb.
    intros [<- | Hin]; [now exists v | now apply IH].
  - exact IH.
Qed.






Lemma bindSlice_environ in_ prev w :
  environ (bindSlice json_Unmarshal in_ prev w)
  = Os.Setenv (environ w) (sliceKey (viper w) (Strings.Join prev "."))
      (sliceText json_Unmarshal (environ w) (sliceKey (viper w) (Strings.Join prev ".")) in_).
Proof.
  unfold bindSlice, sliceText, collect. cbn [environ].
  now rewrite (sliceKey_settings _ _ _ (BindEnv_settings (viper w) (Strings.Join prev "."))).
Qed.

Lemma sliceText_scans x e0 key in_ :
  matching x key = matching e0 key ->
  (forall n, In n (matching e0 key) -> Os.LookupEnv x n = Os.LookupEnv e0 n) ->
  sliceText json_Unmarshal x key in_ = sliceText json_Unmarshal e0 key in_.
Proof.
  intros Hm Hl. unfold sliceText, collect. rewrite Hm.
  replace (List.map (Os.Getenv x) (matching e0 key))
    with (List.map (Os.Getenv e0) (matching e0 key)); [reflexivity|].
  apply map_ext_in. intros n Hn. unfold Os.Getenv. now rewrite (Hl n Hn).
Qed.





Lemma prepared_settings (w : world) :
  envPrefix (viper (prepared w)) = envPrefix (viper w)
  /\ configSource (viper (prepared w)) = configSource (viper w)
  /\ env (viper (prepared w)) = env (viper w)
  /\ defaults (viper (prepared w)) = defaults (viper w)
  /\ envKeyReplacer (viper (prepared w)) = Some ("."%char, "_"%char)
  /\ config (viper (prepared w))
     = match configSource (viper w) with
       | SourceOk settings => settings
       | _ => config (viper w)
       end.
Proof.
  unfold prepared, Store.ReadInConfig. cbn [viper].
  destruct (configSource (viper w)) eqn:E; simpl; rewrite ?E; repeat split.
Qed.


End Twice.


(** * Further properties of the code *)

(** ** Tags and tag names *)

Section Tags.

Import Strings.

Lemma Index_free c s : free_of c s = true -> Index s c = None.
Proof.
  induction s as [|a s IH]; simpl; [reflexivity|].
  intros H. apply andb_prop in H. destruct H as [Ha Hs].
  apply negb_true_iff in Ha. now rewrite Ha, IH.
Qed.

Lemma Index_first c a b :
  free_of c a = true -> Index (a ++ String c b) c = Some (String.length a).
Proof.
  induction a as [|x a IH]; simpl.
  - now rewrite Ascii.eqb_refl.
  - intros H. apply andb_prop in H. destruct H as [Hx Ha].
    apply negb_true_iff in Hx. now rewrite Hx, IH.
Qed.

Lemma take_length a b : take (String.length a) (a ++ b) = a.
Proof. induction a as [|x a IH]; simpl; [now destruct b | now rewrite IH]. Qed.

Lemma drop_length c a b : drop (S (String.length a)) (a ++ String c b) = b.
Proof. induction a as [|x a IH]; simpl; [reflexivity | exact IH]. Qed.

(** X1.  How lines 121-143 read a tag.  Of a tag with a comma, the text
    before the first comma is the name part and the rest the options: the
    name part [-] skips the field, else an option text that holds [squash]
    anywhere squashes it, else the name part names the segment, the field
    name standing in for an empty one.  A tag with no comma is the segment
    as it is, also when it is [-]; no tag leaves the field name. *)
Theorem tag_reading (namePart options name : string) :
  free_of ","%char namePart = true ->
  tagAction (Some (namePart ++ "," ++ options)) name
  = (if String.eqb namePart "-" then Skip
     else if Contains options "squash" then Squash
     else Segment (if String.eqb namePart "" then name else namePart))
  /\ tagAction (Some namePart) name
     = Segment (if String.eqb namePart "" then name else namePart)
  /\ tagAction None name = Segment name.
Proof.
  intros H. split; [|split; [|reflexivity]].
  - unfold tagAction. change ("," ++ options) with (String ","%char options).
    rewrite (Index_first _ _ _ H), take_length, drop_length. reflexivity.
  - unfold tagAction. now rewrite (Index_free _ _ H).
Qed.

(** X2.  [WithTagName] then [TagName]: a custom tag name is the one in
    use, except the empty one, which brings back [mapstructure]; the tag
    name in use is never empty. *)
Theorem tag_name_in_use (e : Enviper) (customTagName : string) :
  TagName (WithTagName e customTagName)
  = (if String.eqb customTagName "" then "mapstructure" else customTagName)
  /\ TagName e <> ""
  /\ TagName New = "mapstructure".
Proof.
  split; [reflexivity | split; [|reflexivity]].
  unfold TagName. destruct (String.eqb (tagName e) "") eqn:E.
  - discriminate.
  - now apply String.eqb_neq.
Qed.

End Tags.

Lemma tag_reading_witness :
  tagAction (Some "-,squash") "Field" = Skip
  /\ tagAction (Some "-") "Field" = Segment "-"
  /\ tagAction None "Field" = Segment "Field".
Proof. exact (tag_reading "-" "squash" "Field" eq_refl). Defined.

(** ** The shape of the walk *)

Section WalkShape.

Variable json_Unmarshal : string -> option data.
Variable tag : string.

Lemma struct_actions_cons name tg exported f0 fs in_ prev :
  actionsKind tag (VStruct ((name, tg, exported, f0) :: fs)) in_ prev
  = andThen (fieldActions tag name tg
               (match f0 with VPtr _ None => true | _ => exported end)
               (match f0 with
                | VPtr pt None => actionsZero tag pt
                | VPtr _ (Some x) => callActions (actionsKind tag) x
                | _ => callActions (actionsKind tag) f0
                end) prev)
      (actionsKind tag (VStruct fs) in_ prev).
Proof. reflexivity. Qed.

Lemma map_actions_app k e es1 es2 in_ prev :
  actionsKind tag (VMap k e (es1 ++ es2)) in_ prev
  = andThen (actionsKind tag (VMap k e es1) in_ prev)
      (actionsKind tag (VMap k e es2) in_ prev).
Proof.
  induction es1 as [|[[key|] v] rest IH].
  - simpl app. symmetry. apply andThen_nil.
  - simpl in *. rewrite IH. symmetry. apply andThen_assoc.
  - simpl in *. exact IH.
Qed.

Lemma andThen_None_r a : andThen a None = None.
Proof. now destruct a. Qed.

(** X3.  A field whose tag says squash is walked at the path of its struct:
    an embedded struct, or a pointer to one that is not empty, binds what
    its own fields would bind were they written in its place. *)
Theorem squash_inlines_fields
    (fs1 fs2 inner : list (string * StructTag * bool * value))
    (name : string) (tg : StructTag) (f0 : value) (prev : list string) (w : world) :
  tagAction (assoc tg tag) name = Squash ->
  (f0 = VStruct inner \/ exists t, f0 = VPtr t (Some (VStruct inner))) ->
  bindEnvs json_Unmarshal tag (VStruct (fs1 ++ (name, tg, true, f0) :: fs2)) prev w
  = bindEnvs json_Unmarshal tag (VStruct (fs1 ++ inner ++ fs2)) prev w.
Proof.
  intros Ht Hf. rewrite !bindEnvs_actions. f_equal. unfold actions, enterActions.
  rewrite !struct_actions_app, struct_actions_cons. f_equal.
  unfold fieldActions. rewrite Ht.
  destruct Hf as [-> | [t ->]]; reflexivity.
Qed.

(** X4.  Line 131 calls [Interface] with no [CanInterface] test: a squash
    tag on an unexported field that is not an empty pointer makes the walk
    panic, wherever the field stands in its struct. *)
Theorem squash_unexported_panics
    (fs1 fs2 : list (string * StructTag * bool * value))
    (name : string) (tg : StructTag) (f0 : value) (prev : list string) (w : world) :
  tagAction (assoc tg tag) name = Squash ->
  (forall pt, f0 <> VPtr pt None) ->
  bindEnvs json_Unmarshal tag (VStruct (fs1 ++ (name, tg, false, f0) :: fs2)) prev w
  = None.
Proof.
  intros Ht Hf. rewrite bindEnvs_actions. unfold actions, enterActions.
  rewrite struct_actions_app, struct_actions_cons.
  unfold fieldActions. rewrite Ht.
  replace (match f0 with VPtr _ None => true | _ => false end) with false.
  - simpl andThen. now rewrite andThen_None_r.
  - destruct f0 as [| | | | |pt [x|]|]; try reflexivity. now destruct (Hf pt).
Qed.

(** X5.  An unexported field with any other tag, or none, is passed over in
    silence (line 145), whatever it holds, unless it is an empty pointer:
    the walk is that of the struct without the field. *)
Theorem unexported_field_not_bound
    (fs1 fs2 : list (string * StructTag * bool * value))
    (name : string) (tg : StructTag) (f0 : value) (tv : string)
    (prev : list string) (w : world) :
  tagAction (assoc tg tag) name = Segment tv ->
  (forall pt, f0 <> VPtr pt None) ->
  bindEnvs json_Unmarshal tag (VStruct (fs1 ++ (name, tg, false, f0) :: fs2)) prev w
  = bindEnvs json_Unmarshal tag (VStruct (fs1 ++ fs2)) prev w.
Proof.
  intros Ht Hf. rewrite !bindEnvs_actions. f_equal. unfold actions, enterActions.
  rewrite !struct_actions_app, struct_actions_cons. f_equal.
  unfold fieldActions. rewrite Ht.
  replace (match f0 with VPtr _ None => true | _ => false end) with false.
  - apply andThen_nil.
  - destruct f0 as [| | | | |pt [x|]|]; try reflexivity. now destruct (Hf pt).
Qed.

(** X6.  A map entry whose key is not a [string] binds nothing and stops
    nothing (lines 152-154): the walk is that of the map without the entry. *)
Theorem other_map_keys_skipped (k e : gotype) (es1 es2 : list (mapkey * value))
    (v : value) (prev : list string) (w : world) :
  bindEnvs json_Unmarshal tag (VMap k e (es1 ++ (KOther, v) :: es2)) prev w
  = bindEnvs json_Unmarshal tag (VMap k e (es1 ++ es2)) prev w.
Proof.
  rewrite !bindEnvs_actions. f_equal. unfold actions, enterActions.
  now rewrite !map_actions_app.
Qed.

(** X7.  The pointer step of lines 105-108.  The walk of a pointer that is
    not empty is the walk of what it points to, for everything but a
    sequence and a pointer; a pointer to a sequence is bound like the
    sequence but is never cast by the store: its elements are written as a
    JSON array, also when they are strings. *)
Theorem pointer_step (t : gotype) (v : value) (prev : list string) (w : world) :
  (match v with
   | VSlice _ _ | VPtr _ _ => True
   | _ => bindEnvs json_Unmarshal tag (VPtr t (Some v)) prev w
          = bindEnvs json_Unmarshal tag v prev w
   end)
  /\ (forall el elems,
        v = VSlice el elems ->
        let key := sliceKey (viper w) (Strings.Join prev ".") in
        option_map environ (bindEnvs json_Unmarshal tag (VPtr t (Some v)) prev w)
        = Some (Os.Setenv (environ w) key
                  (Json.Marshal (List.map (decodeElement json_Unmarshal)
                                   (collect (environ w) key))))).
Proof.
  split.
  - destruct v; reflexivity.
  - intros el elems -> key.
    change (bindEnvs json_Unmarshal tag (VPtr t (Some (VSlice el elems))) prev w)
      with (Some (bindSlice json_Unmarshal (VPtr t (Some (VSlice el elems))) prev w)).
    cbn [option_map]. f_equal. rewrite bindSlice_environ. reflexivity.
Qed.

End WalkShape.

Lemma squash_inlines_fields_witness :
  bindEnvs Demo.json_Unmarshal "mapstructure"
    (VStruct [("Base", [("mapstructure", ",squash")], true,
               VStruct [("Port", [], true, VBasic Int "0")])])
    [] (Demo.start (Demo.storeRead "") [])
  = bindEnvs Demo.json_Unmarshal "mapstructure"
      (VStruct [("Port", [], true, VBasic Int "0")])
      [] (Demo.start (Demo.storeRead "") []).
Proof.
  exact (squash_inlines_fields Demo.json_Unmarshal "mapstructure" [] []
           [("Port", [], true, VBasic Int "0")] "Base"
           [("mapstructure", ",squash")] _ [] _ eq_refl (or_introl eq_refl)).
Defined.

Lemma squash_unexported_panics_witness :
  bindEnvs Demo.json_Unmarshal "mapstructure"
    (VStruct [("base", [("mapstructure", ",squash")], false,
               VStruct [("Port", [], true, VBasic Int "0")])])
    [] (Demo.start (Demo.storeRead "") [])
  = None.
Proof.
  refine (squash_unexported_panics Demo.json_Unmarshal "mapstructure" [] []
            "base" [("mapstructure", ",squash")] _ [] _ eq_refl _).
  intros pt. discriminate.
Defined.

Lemma unexported_field_not_bound_witness :
  bindEnvs Demo.json_Unmarshal "mapstructure"
    (VStruct [("secret", [], false, VBasic String_ "");
              ("Port", [], true, VBasic Int "0")])
    [] (Demo.start (Demo.storeRead "") [])
  = bindEnvs Demo.json_Unmarshal "mapstructure"
      (VStruct [("Port", [], true, VBasic Int "0")])
      [] (Demo.start (Demo.storeRead "") []).
Proof.
  refine (unexported_field_not_bound Demo.json_Unmarshal "mapstructure" []
            [("Port", [], true, VBasic Int "0")]
            "secret" [] _ "secret" [] _ eq_refl _).
  intros pt. discriminate.
Defined.

(** ** The scan of a sequence binding *)

Section Scan.

Variable json_Unmarshal : string -> option data.

(** The entry of a variable never starts with the name of that variable and
    an underscore. *)
Lemma self_not_matched (key val : string) :
  Strings.HasPrefix (key ++ "=" ++ val) (key ++ "_") = false.
Proof.
  unfold Strings.HasPrefix. induction key as [|c key IH]; [reflexivity|].
  simpl. destruct (Ascii.ascii_dec c c) as [_ | H]; [exact IH | reflexivity].
Qed.

Lemma set_idem e k v : Os.set (Os.set e k v) k v = Os.set e k v.
Proof.
  induction e as [|[n x] r IH]; simpl.
  - now rewrite String.eqb_refl.
  - destruct (String.eqb n k) eqn:E; simpl; rewrite E; [reflexivity | now rewrite IH].
Qed.

Lemma Setenv_idem e k v : Os.Setenv (Os.Setenv e k v) k v = Os.Setenv e k v.
Proof. unfold Os.Setenv. destruct (_ || _); [reflexivity | apply set_idem]. Qed.

(** X8.  A sequence binding never collects the variable it writes itself
    (the entry [KEY=...] does not start with [KEY_]), so binding the same
    sequence a second time leaves the environment as the first left it. *)
Theorem sequence_binding_twice (in_ : value) (prev : list string) (w : world) :
  wfEnv (environ w) ->
  environ (bindSlice json_Unmarshal in_ prev (bindSlice json_Unmarshal in_ prev w))
  = environ (bindSlice json_Unmarshal in_ prev w).
Proof.
  intros Hwf.
  set (key := sliceKey (viper w) (Strings.Join prev ".")).
  set (text := sliceText json_Unmarshal (environ w) key in_).
  assert (E1 : environ (bindSlice json_Unmarshal in_ prev w)
               = Os.Setenv (environ w) key text) by apply bindSlice_environ.
  rewrite bindSlice_environ, E1.
  rewrite (sliceKey_settings _ _ _ (run1_settings json_Unmarshal w (ASlice in_ prev))).
  fold key.
  rewrite (sliceText_scans json_Unmarshal (Os.Setenv (environ w) key text) (environ w) key in_).
  - apply Setenv_idem.
  - apply matching_Setenv. intros val. apply self_not_matched.
  - intros n Hn. apply LookupEnv_Setenv_other. intros E.
    destruct (in_matching _ _ _ Hwf Hn) as [val Hval].
    rewrite <- E, self_not_matched in Hval. discriminate.
Qed.

Lemma lookup_NoDup e n v :
  NoDup (List.map fst e) -> In (n, v) e -> Os.LookupEnv e n = Some v.
Proof.
  induction e as [|[m x] r IH]; simpl; [contradiction|].
  intros Hnd [H | H].
  - injection H as -> ->. now rewrite String.eqb_refl.
  - inversion Hnd as [|? ? Hm Hr]; subst.
    destruct (String.eqb m n) eqn:E.
    + apply String.eqb_eq in E. subst m. exfalso. apply Hm.
      change n with (fst (n, v)). now apply in_map.
    + now apply IH.
Qed.

Lemma filter_Environ (P : string -> bool) e :
  List.filter P (Os.Environ e)
  = Os.Environ (List.filter (fun kv => P (fst kv ++ "=" ++ snd kv)) e).
Proof.
  unfold Os.Environ. induction e as [|kv r IH]; [reflexivity|].
  cbn [List.map List.filter]. destruct (P (fst kv ++ "=" ++ snd kv)); cbn [List.map];
    now rewrite IH.
Qed.

(** X9.  What lines 177-185 collect, in an environment whose names are
    distinct: the values of the variables whose entry [NAME=value] starts
    with the resolved name and an underscore, each its own, in the order of
    enumeration. *)
Theorem collect_own_values (e : Os.environ) (key : string) :
  wfEnv e -> NoDup (List.map fst e) ->
  collect e key
  = List.map snd
      (List.filter (fun kv => Strings.HasPrefix (fst kv ++ "=" ++ snd kv) (key ++ "_")) e).
Proof.
  intros Hwf Hnd. unfold collect, matching.
  rewrite (filter_Environ (fun s => Strings.HasPrefix s (key ++ "_"))).
  unfold Os.Environ. rewrite !map_map. apply map_ext_in.
  intros [n v] Hin. apply filter_In in Hin. destruct Hin as [Hin _]. simpl.
  unfold wfEnv in Hwf. rewrite Forall_forall in Hwf.
  pose proof (before_eq_entry n v (Hwf (n, v) Hin)) as Hb. simpl in Hb. rewrite Hb.
  unfold Os.Getenv. now rewrite (lookup_NoDup e n v Hnd Hin).
Qed.

End Scan.

Lemma sequence_binding_twice_witness :
  environ (bindSlice Demo.json_Unmarshal Demo.flags ["flags"]
             (bindSlice Demo.json_Unmarshal Demo.flags ["flags"]
                (Demo.start (Demo.storeRead "") Demo.flagsEnv)))
  = environ (bindSlice Demo.json_Unmarshal Demo.flags ["flags"]
               (Demo.start (Demo.storeRead "") Demo.flagsEnv)).
Proof.
  refine (sequence_binding_twice Demo.json_Unmarshal Demo.flags ["flags"]
            (Demo.start (Demo.storeRead "") Demo.flagsEnv) _).
  repeat constructor.
Defined.

Lemma collect_own_values_witness :
  collect Demo.listEnv "LIST" = ["foo"; "bar"].
Proof.
  refine (collect_own_values Demo.listEnv "LIST" _ _).
  - repeat constructor.
  - repeat constructor; simpl; intuition discriminate.
Defined.

(** ** What [Unmarshal] leaves of the state it was given *)

Section Frame.

Variable json_Unmarshal : string -> option data.
Variable Decode : string -> Viper -> Os.environ -> value -> value * option error.

Lemma Unmarshal_acts (e : Enviper) (rawVal : value) (w : world) (o : outcome) :
  (forall msg, configSource (viper w) <> SourceBroken msg) ->
  Unmarshal json_Unmarshal Decode e rawVal w = Some o ->
  exists acts, actions (TagName e) (seen Decode e rawVal w) [] = Some acts.
Proof.
  intros Hsrc U. rewrite (Unmarshal_run _ _ _ _ _ Hsrc) in U.
  destruct (actions _ _ _) as [acts|]; [now exists acts | discriminate].
Qed.

Lemma set_names e k v :
  exists added, List.map fst (Os.set e k v) = (List.map fst e ++ added)%list.
Proof.
  induction e as [|[n x] r [added IH]]; simpl.
  - now exists [k].
  - destruct (String.eqb n k); simpl.
    + exists []. now rewrite app_nil_r.
    + exists added. now rewrite IH.
Qed.

Lemma Setenv_names e k v :
  exists added, List.map fst (Os.Setenv e k v) = (List.map fst e ++ added)%list.
Proof.
  unfold Os.Setenv. destruct (_ || _); [|apply set_names].
  exists []. now rewrite app_nil_r.
Qed.

Lemma run_names acts w :
  exists added,
    List.map fst (environ (run json_Unmarshal acts w))
    = (List.map fst (environ w) ++ added)%list.
Proof.
  revert w. induction acts as [|a acts IH]; intros w.
  - exists []. now rewrite app_nil_r.
  - rewrite run_cons. destruct (IH (run1 json_Unmarshal w a)) as [added2 H2].
    assert (H1 : exists added1,
               List.map fst (environ (run1 json_Unmarshal w a))
               = (List.map fst (environ w) ++ added1)%list).
    { destruct a as [prev | in_ prev]; simpl.
      - exists []. now rewrite app_nil_r.
      - apply Setenv_names. }
    destruct H1 as [added1 H1]. exists (added1 ++ added2)%list.
    now rewrite H2, H1, app_assoc.
Qed.

Lemma run_store_grows acts w :
  (exists added, env (viper (run json_Unmarshal acts w)) = (added ++ env (viper w))%list)
  /\ (exists added,
        defaults (viper (run json_Unmarshal acts w)) = (added ++ defaults (viper w))%list).
Proof.
  revert w. induction acts as [|a acts IH]; intros w.
  - split; now exists [].
  - rewrite run_cons. destruct (IH (run1 json_Unmarshal w a)) as [[e2 He] [d2 Hd]].
    rewrite He, Hd, run1_env. split.
    + destruct (String.eqb (keyOf a) "").
      * now exists e2.
      * exists (e2 ++ [(keyOf a, Store.mergeWithEnvPrefix (viper w) (keyOf a))])%list.
        now rewrite <- app_assoc.
    + destruct a as [prev | in_ prev]; simpl.
      * exists d2. unfold Store.BindEnv.
        now destruct (String.eqb (Strings.Join prev ".") "").
      * exists (d2 ++ [(Strings.Join prev ".", in_)])%list. rewrite <- app_assoc.
        unfold Store.BindEnv. now destruct (String.eqb (Strings.Join prev ".") "").
Qed.

(** X10.  [Unmarshal] never unsets a variable and never moves one: the names
    of the environment it leaves start with the names it found, in their
    order.  When the walk has no sequence to bind, the environment is left
    as it was. *)
Theorem environment_only_grows (e : Enviper) (rawVal : value) (w : world)
    (o : outcome) :
  Unmarshal json_Unmarshal Decode e rawVal w = Some o ->
  (exists added,
     List.map fst (environ (final o)) = (List.map fst (environ w) ++ added)%list)
  /\ (forall acts,
        actions (TagName e) (seen Decode e rawVal w) [] = Some acts ->
        Forall (fun a => isSlice a = false) acts ->
        environ (final o) = environ w).
Proof.
  intros U. destruct (configSource (viper w)) as [settings | | msg] eqn:E.
  1, 2: assert (Hsrc : forall msg, configSource (viper w) <> SourceBroken msg)
      by (intros msg; rewrite E; discriminate);
    destruct (Unmarshal_acts e rawVal w o Hsrc U) as [acts A];
    destruct (Unmarshal_final json_Unmarshal Decode e rawVal w o acts Hsrc U A) as [_ ->];
    (split; [exact (run_names acts (prepared w)) |]);
    intros acts' A' Hn; rewrite A in A'; injection A' as <-;
    exact (run_environ_no_slice json_Unmarshal acts (prepared w) Hn).
  unfold Unmarshal, Store.ReadInConfig in U. rewrite E in U. injection U as <-.
  split; [|reflexivity]. exists []. simpl. now rewrite app_nil_r.
Qed.

(** X11.  What [Unmarshal] does to the store it is given, when the base
    source loads or is absent: the separator substitution is the one of
    line 100, whatever the caller had configured; the prefix is kept; what
    was bound and what was registered as a default is still there, behind
    what the walk added; and every path of the walk is bound to its name. *)
Theorem store_after_unmarshal (e : Enviper) (rawVal : value) (w : world)
    (o : outcome) :
  (forall msg, configSource (viper w) <> SourceBroken msg) ->
  Unmarshal json_Unmarshal Decode e rawVal w = Some o ->
  envKeyReplacer (viper (final o)) = Some ("."%char, "_"%char)
  /\ envPrefix (viper (final o)) = envPrefix (viper w)
  /\ (exists added, env (viper (final o)) = (added ++ env (viper w))%list)
  /\ (exists added, defaults (viper (final o)) = (added ++ defaults (viper w))%list)
  /\ (forall acts a,
        actions (TagName e) (seen Decode e rawVal w) [] = Some acts ->
        In a acts -> keyOf a <> "" ->
        assoc (env (viper (final o))) (keyOf a)
        = Some (Store.mergeWithEnvPrefix (viper w) (keyOf a))).
Proof.
  intros Hsrc U. destruct (Unmarshal_acts e rawVal w o Hsrc U) as [acts A].
  destruct (Unmarshal_final json_Unmarshal Decode e rawVal w o acts Hsrc U A) as [-> _].
  destruct (run_settings json_Unmarshal acts (prepared w)) as (_ & _ & Sp & Sr).
  destruct (prepared_settings w) as (Pp & _ & Pe & Pd & Pr & _).
  destruct (run_store_grows acts (prepared w)) as [He Hd].
  rewrite Pe in He. rewrite Pd in Hd.
  repeat split.
  - now rewrite Sr.
  - now rewrite Sp.
  - exact He.
  - exact Hd.
  - intros acts' a A' Ha Hk. rewrite A in A'. injection A' as <-.
    rewrite run_bound; [|now apply in_map | exact Hk].
    unfold Store.mergeWithEnvPrefix. now rewrite Pp.
Qed.

End Frame.

Lemma environment_only_grows_witness :
  exists o,
    Unmarshal Demo.json_Unmarshal Demo.Decode New Demo.list
      (Demo.start (Demo.store SourceAbsent "") Demo.listEnv) = Some o
    /\ exists added,
         List.map fst (environ (final o)) = (["LIST_1"; "LIST_2"] ++ added)%list.
Proof.
  eexists. split; [reflexivity|].
  exact (proj1 (environment_only_grows Demo.json_Unmarshal Demo.Decode New Demo.list
                  (Demo.start (Demo.store SourceAbsent "") Demo.listEnv) _ eq_refl)).
Defined.

Lemma store_after_unmarshal_witness :
  exists o,
    Unmarshal Demo.json_Unmarshal Demo.Decode New Demo.port
      (Demo.start (Demo.store Demo.portBase "app") Demo.portEnv) = Some o
    /\ envKeyReplacer (viper (final o)) = Some ("."%char, "_"%char).
Proof.
  eexists. split; [reflexivity|].
  refine (proj1 (store_after_unmarshal Demo.json_Unmarshal Demo.Decode New Demo.port
                   (Demo.start (Demo.store Demo.portBase "app") Demo.portEnv) _ _ eq_refl)).
  intros msg. discriminate.
Defined.

(** ** What the final decode reads for a sequence *)

Section SequenceRead.

Variable json_Unmarshal : string -> option data.
Variable json_UnmarshalInto : gotype -> string -> option data.
Variable Decode : string -> Viper -> Os.environ -> value -> value * option error.

Lemma append_empty s : s ++ "" = s.
Proof. induction s as [|c s IH]; simpl; [reflexivity | now rewrite IH]. Qed.

Lemma append_assoc a b c : (a ++ b) ++ c = a ++ (b ++ c).
Proof. induction a as [|x a IH]; simpl; [reflexivity | now rewrite IH]. Qed.

Lemma fields_from_word a cur rest :
  spaceFree a = true ->
  Strings.fields_from (Some cur) (a ++ rest) = Strings.fields_from (Some (cur ++ a)) rest.
Proof.
  revert cur. induction a as [|c a IH]; intros cur H; simpl.
  - now rewrite append_empty.
  - simpl in H. apply andb_prop in H. destruct H as [Hc Ha].
    apply negb_true_iff in Hc. rewrite Hc, (IH _ Ha), append_assoc. reflexivity.
Qed.

Lemma fields_from_first a rest :
  isWord a = true ->
  Strings.fields_from None (a ++ rest) = Strings.fields_from (Some a) rest.
Proof.
  unfold isWord. destruct a as [|c a]; [discriminate|]. simpl.
  intros H. apply andb_prop in H. destruct H as [Hc Ha].
  apply negb_true_iff in Hc. rewrite Hc.
  now rewrite (fields_from_word a (String c EmptyString) rest Ha).
Qed.

(** Joining by one space and splitting on white space gives the words back. *)
Lemma Fields_Join (values : list string) :
  Forall (fun v => isWord v = true) values ->
  Strings.Fields (Strings.Join values " ") = values.
Proof.
  unfold Strings.Fields. induction 1 as [|v vs Hv Hvs IH]; [reflexivity|].
  destruct vs as [|v2 vs].
  - change (Strings.Join [v] " ") with v. rewrite <- (append_empty v) at 1.
    now rewrite (fields_from_first v "" Hv).
  - rewrite Join_cons, (fields_from_first v _ Hv).
    change (" " ++ Strings.Join (v2 :: vs) " ")
      with (String " "%char (Strings.Join (v2 :: vs) " ")).
    cbn [Strings.fields_from]. change (Strings.is_space " "%char) with true.
    cbn iota. now rewrite IH.
Qed.

(** The final read of the key of the one sequence the walk binds, with no
    prefix configured: the text the binding wrote, and the sequence as the
    default. *)
Lemma sequence_final_read (e : Enviper) (rawVal : value) (w : world) (o : outcome)
    (before after : list action) (in_ : value) (prev : list string) :
  let key := Strings.Join prev "." in
  let name := sliceKey (viper (prepared w)) key in
  (forall msg, configSource (viper w) <> SourceBroken msg) ->
  Unmarshal json_Unmarshal Decode e rawVal w = Some o ->
  actions (TagName e) (seen Decode e rawVal w) []
  = Some (before ++ ASlice in_ prev :: after)%list ->
  Forall (fun a => isSlice a = false) before ->
  Forall (fun a => isSlice a = false) after ->
  envPrefix (viper w) = "" ->
  key <> "" -> validName name ->
  Store.find (viper (final o)) (environ (final o)) key
  = Some (Store.FromEnv (sliceText json_Unmarshal (environ w) name in_))
  /\ assoc (defaults (viper (final o))) key = Some in_.
Proof.
  intros key name Hsrc U A Hb Ha Hp Hk Hv.
  destruct (Unmarshal_final json_Unmarshal Decode e rawVal w o _ Hsrc U A) as [Ev Ee].
  set (acts := (before ++ ASlice in_ prev :: after)%list) in *.
  set (w0 := prepared w) in *.
  set (w1 := run json_Unmarshal before w0).
  set (w2 := bindSlice json_Unmarshal in_ prev w1).
  assert (R : run json_Unmarshal acts w0 = run json_Unmarshal after w2).
  { unfold acts. now rewrite run_app, run_cons. }
  assert (N1 : sliceKey (viper w1) key = name).
  { unfold name. apply sliceKey_settings, run_settings. }
  assert (E1 : environ w1 = environ w).
  { unfold w1. now rewrite run_environ_no_slice. }
  assert (E2 : environ w2
               = Os.set (environ w) name (sliceText json_Unmarshal (environ w) name in_)).
  { unfold w2. rewrite bindSlice_environ. fold key. rewrite N1, E1.
    now apply Setenv_valid. }
  assert (B : boundName (viper w0) key = name).
  { unfold boundName, name. apply envName_sliceKey; [reflexivity|].
    unfold dotFree. change (envPrefix (viper w0)) with
      (envPrefix (fst (Store.ReadInConfig (viper w)))).
    unfold Store.ReadInConfig. destruct (configSource (viper w)); simpl; now rewrite Hp. }
  split.
  - rewrite Ev, Ee, bound_read; [| | exact Hk].
    + rewrite B, R, (run_lookup json_Unmarshal after w2 name (no_slice_no_writes _ _ _ Ha)).
      now rewrite E2, LookupEnv_set_same.
    + unfold acts. rewrite map_app. apply in_or_app. right. left. reflexivity.
  - rewrite Ev, R, run_defaults.
    + apply bindSlice_default.
    + intros a Hin Hs. rewrite Forall_forall in Ha. rewrite (Ha a Hin) in Hs. discriminate.
Qed.

(** X12.  The structured path and the hook, end to end.  For the one
    sequence the walk binds, not cast by the store and with no prefix
    configured, the final decode hands the hook the JSON array the binding
    wrote; a slice target gets what that array decodes to, and when it does
    not decode the text itself goes on to the decoder. *)
Theorem structured_sequence_decoded (e : Enviper) (rawVal : value) (w : world)
    (o : outcome) (before after : list action) (in_ : value) (prev : list string)
    (t : gotype) :
  let key := Strings.Join prev "." in
  let name := sliceKey (viper (prepared w)) key in
  let text := Json.Marshal (List.map (decodeElement json_Unmarshal)
                              (collect (environ w) name)) in
  (forall msg, configSource (viper w) <> SourceBroken msg) ->
  Unmarshal json_Unmarshal Decode e rawVal w = Some o ->
  actions (TagName e) (seen Decode e rawVal w) []
  = Some (before ++ ASlice in_ prev :: after)%list ->
  Forall (fun a => isSlice a = false) before ->
  Forall (fun a => isSlice a = false) after ->
  envPrefix (viper w) = "" ->
  key <> "" -> validName name ->
  supportedCast in_ = false ->
  Kind t = KindSlice ->
  decoded json_UnmarshalInto (final o) t key
  = match json_UnmarshalInto t text with
    | Some target => Some (Target target)
    | None => Some (Data (Store.FromEnv text))
    end.
Proof.
  intros key name text Hsrc U A Hb Ha Hp Hk Hv Hc Ht.
  destruct (sequence_final_read e rawVal w o before after in_ prev
              Hsrc U A Hb Ha Hp Hk Hv) as [F D].
  fold key name in F, D. unfold sliceText in F. rewrite Hc in F. fold text in F.
  unfold decoded, Store.Get. rewrite F, D.
  assert (G : match in_ with
              | VSlice (TBasic String_) _ | VSlice (TBasic Int) _ =>
                  Some (Store.FromEnvFields (Strings.Fields text))
              | _ => Some (Store.FromEnv text)
              end = Some (Store.FromEnv text)).
  { destruct in_ as [| | | |el elems| |]; try reflexivity.
    destruct el as [b| | | | | |]; try reflexivity.
    destruct b; try reflexivity; discriminate. }
  rewrite G. unfold SliceDecodeHook. simpl foundKind. rewrite Ht. simpl foundText.
  cbn iota. reflexivity.
Qed.

(** X13.  The direct path, end to end.  For the one sequence the walk
    binds, of strings or of integers and with no prefix configured, the
    final decode reads the collected values themselves, in the order of
    enumeration, when none of them is empty or holds white space. *)
Theorem direct_sequence_decoded (e : Enviper) (rawVal : value) (w : world)
    (o : outcome) (before after : list action) (el : gotype) (elems : list value)
    (prev : list string) (t : gotype) :
  let key := Strings.Join prev "." in
  let name := sliceKey (viper (prepared w)) key in
  (forall msg, configSource (viper w) <> SourceBroken msg) ->
  Unmarshal json_Unmarshal Decode e rawVal w = Some o ->
  actions (TagName e) (seen Decode e rawVal w) []
  = Some (before ++ ASlice (VSlice el elems) prev :: after)%list ->
  Forall (fun a => isSlice a = false) before ->
  Forall (fun a => isSlice a = false) after ->
  envPrefix (viper w) = "" ->
  key <> "" -> validName name ->
  el = TBasic String_ \/ el = TBasic Int ->
  Forall (fun v => isWord v = true) (collect (environ w) name) ->
  decoded json_UnmarshalInto (final o) t key
  = Some (Data (Store.FromEnvFields (collect (environ w) name))).
Proof.
  intros key name Hsrc U A Hb Ha Hp Hk Hv Hel Hw.
  destruct (sequence_final_read e rawVal w o before after (VSlice el elems) prev
              Hsrc U A Hb Ha Hp Hk Hv) as [F D].
  fold key name in F, D. unfold decoded, Store.Get. rewrite F, D.
  destruct Hel as [-> | ->]; unfold sliceText; cbn [supportedCast];
    rewrite (Fields_Join _ Hw); reflexivity.
Qed.

End SequenceRead.

Lemma structured_sequence_decoded_witness :
  exists o,
    Unmarshal Demo.json_Unmarshal Demo.Decode New Demo.itemsOf
      (Demo.start (Demo.store SourceAbsent "") []) = Some o
    /\ decoded Demo.json_UnmarshalInto (final o) (TSlice (TBasic Bool)) "Items"
       = Some (Target (JArray [])).
Proof.
  eexists. split; [reflexivity|].
  eapply (structured_sequence_decoded Demo.json_Unmarshal Demo.json_UnmarshalInto
            Demo.Decode New Demo.itemsOf (Demo.start (Demo.store SourceAbsent "") [])
            _ [] [] (VSlice (TBasic Bool) []) ["Items"] (TSlice (TBasic Bool))).
  - intros msg. discriminate.
  - reflexivity.
  - reflexivity.
  - constructor.
  - constructor.
  - reflexivity.
  - discriminate.
  - split; [discriminate | reflexivity].
  - reflexivity.
  - reflexivity.
Defined.

Lemma direct_sequence_decoded_witness :
  exists o,
    Unmarshal Demo.json_Unmarshal Demo.Decode New Demo.list
      (Demo.start (Demo.store SourceAbsent "") Demo.listEnv) = Some o
    /\ decoded Demo.json_UnmarshalInto (final o) (TSlice (TBasic String_)) "List"
       = Some (Data (Store.FromEnvFields ["foo"; "bar"])).
Proof.
  eexists. split; [reflexivity|].
  eapply (direct_sequence_decoded Demo.json_Unmarshal Demo.json_UnmarshalInto
            Demo.Decode New Demo.list
            (Demo.start (Demo.store SourceAbsent "") Demo.listEnv)
            _ [] [] (TBasic String_) [] ["List"] (TSlice (TBasic String_))).
  - intros msg. discriminate.
  - reflexivity.
  - reflexivity.
  - constructor.
  - constructor.
  - reflexivity.
  - discriminate.
  - split; [discriminate | reflexivity].
  - left. reflexivity.
  - repeat constructor.
Defined.

(** ** A prefix that holds the separator *)

Section DottedPrefix.

Import Strings.

Lemma free_of_Replace s : free_of "." (Replace "." "_" s) = true.
Proof.
  induction s as [|c s IH]; [reflexivity|].
  unfold Replace in *. simpl. rewrite IH.
  unfold replace_ascii. destruct (Ascii.eqb c ".") eqn:E; [reflexivity|].
  now rewrite E.
Qed.

(** X14.  Lines 165-173 substitute the separator in the key and only then
    put the prefix before it: the name a sequence binding scans for and
    writes is free of dots exactly when the prefix is, while the name the
    store reads for the bound key never holds one.  With a dot in the
    prefix the binding writes a variable the store does not read. *)
Theorem dotted_prefix_kept (v : Viper) (key : string) :
  envKeyReplacer v = Some ("."%char, "_"%char) ->
  free_of "." (sliceKey v key) = free_of "." (envPrefix v)
  /\ free_of "." (boundName v key) = true
  /\ (free_of "." (envPrefix v) = false -> sliceKey v key <> boundName v key).
Proof.
  intros Hr.
  assert (A : free_of "." (sliceKey v key) = free_of "." (envPrefix v)).
  { unfold sliceKey. rewrite Hr. destruct (String.eqb (envPrefix v) "") eqn:E.
    - apply String.eqb_eq in E. rewrite E, free_of_ToUpper. apply free_of_Replace.
    - rewrite !free_of_ToUpper, !free_of_app, free_of_Replace.
      simpl. now rewrite andb_true_r. }
  assert (B : free_of "." (boundName v key) = true).
  { unfold boundName, Store.envName. rewrite Hr. apply free_of_Replace. }
  split; [exact A | split; [exact B|]].
  intros Hp E. rewrite E, B, Hp in A. discriminate.
Qed.

End DottedPrefix.

Lemma dotted_prefix_kept_witness :
  Strings.free_of "." (sliceKey (Demo.storeRead "my.app") "list") = false
  /\ Strings.free_of "." (boundName (Demo.storeRead "my.app") "list") = true.
Proof.
  pose proof (dotted_prefix_kept (Demo.storeRead "my.app") "list" eq_refl) as H.
  split; [exact (proj1 H) | exact (proj1 (proj2 H))].
Defined.

(** * The sequence merge and empty pointer fields, in a walk of many bindings *)

Section FinalDecode.

Variable json_Unmarshal : string -> option data.
Variable Decode : string -> Viper -> Os.environ -> value -> value * option error.

(** What [Unmarshal] returns is what the structure decoder makes, in its
    second run, of the store and the environment the walk left. *)
Lemma Unmarshal_decodes (e : Enviper) (rawVal : value) (w : world) (o : outcome) :
  (forall msg, configSource (viper w) <> SourceBroken msg) ->
  Unmarshal json_Unmarshal Decode e rawVal w = Some o ->
  rawVal' o = fst (Decode (TagName e) (viper (final o)) (environ (final o))
                     (seen Decode e rawVal w))
  /\ result o = snd (Decode (TagName e) (viper (final o)) (environ (final o))
                       (seen Decode e rawVal w)).
Proof.
  intros Hsrc U. rewrite (Unmarshal_run _ _ _ _ _ Hsrc) in U.
  destruct (actions _ _ _) as [acts|]; [|discriminate].
  simpl in U. injection U as <-. split; reflexivity.
Qed.

Lemma Environ_filter_Setenv (P : string -> bool) x k t :
  (forall val, P (k ++ "=" ++ val) = false) ->
  List.filter P (Os.Environ (Os.Setenv x k t)) = List.filter P (Os.Environ x).
Proof.
  intros H. unfold Os.Setenv. destruct (_ || _); [reflexivity|].
  now apply Environ_filter_set.
Qed.

(** Bindings that write no entry [P] accepts leave what [P] filters out of
    the enumeration as it was. *)
Lemma run_filter_kept (P : string -> bool) acts w :
  (forall a, In a acts -> isSlice a = true ->
     forall val, P (sliceKey (viper w) (keyOf a) ++ "=" ++ val) = false) ->
  List.filter P (Os.Environ (environ (run json_Unmarshal acts w)))
  = List.filter P (Os.Environ (environ w)).
Proof.
  revert w. induction acts as [|a acts IH]; intros w H; [reflexivity|].
  rewrite run_cons, IH.
  - destruct a as [prev | in_ prev]; [reflexivity|].
    simpl run1. rewrite bindSlice_environ. apply Environ_filter_Setenv.
    intros val. apply (H (ASlice in_ prev)); [now left | reflexivity].
  - intros b Hb Hs val.
    rewrite (sliceKey_settings _ _ _ (run1_settings json_Unmarshal w a)).
    apply H; [now right | exact Hs].
Qed.

End FinalDecode.

Section SequenceMergeAmong.

Variable json_Unmarshal : string -> option data.
Variable json_UnmarshalInto : gotype -> string -> option data.
Variable Decode : string -> Viper -> Os.environ -> value -> value * option error.

(** C6, as the code has it.  A string sequence is bound to the resolved
    name [KEY], no prefix is configured, and the variables whose entry
    starts with [KEY_] are two, enumerated in this order: one that holds
    [foo], then one that holds [bar] (as [KEY_1=foo], [KEY_2=bar]).  When
    no sequence binding earlier in the walk writes a variable whose entry
    starts with [KEY_], and none later in the walk writes [KEY], the second
    run of the structure decoder, whose outcome [Unmarshal] returns, reads
    the two-element sequence [foo], [bar] for the key, in the order of
    enumeration. *)
Theorem sequence_merge (e : Enviper) (rawVal : value) (w : world) (o : outcome)
    (before after : list action) (elems : list value) (prev : list string)
    (first second : string) :
  let key := Strings.Join prev "." in
  let name := sliceKey (viper (prepared w)) key in
  (forall msg, configSource (viper w) <> SourceBroken msg) ->
  Unmarshal json_Unmarshal Decode e rawVal w = Some o ->
  actions (TagName e) (seen Decode e rawVal w) []
  = Some (before ++ ASlice (VSlice (TBasic String_) elems) prev :: after)%list ->
  (forall a, In a before -> isSlice a = true ->
     forall val,
       Strings.HasPrefix (sliceKey (viper (prepared w)) (keyOf a) ++ "=" ++ val)
         (name ++ "_") = false) ->
  (forall a, In a after -> isSlice a = true ->
     sliceKey (viper (prepared w)) (keyOf a) <> name) ->
  envPrefix (viper w) = "" ->
  key <> "" -> validName name ->
  Strings.free_of "="%char first = true ->
  Strings.free_of "="%char second = true ->
  List.filter (fun s => Strings.HasPrefix s (name ++ "_")) (Os.Environ (environ w))
  = [(name ++ "_" ++ first) ++ "=" ++ "foo"; (name ++ "_" ++ second) ++ "=" ++ "bar"] ->
  Os.LookupEnv (environ w) (name ++ "_" ++ first) = Some "foo" ->
  Os.LookupEnv (environ w) (name ++ "_" ++ second) = Some "bar" ->
  decoded json_UnmarshalInto (final o) (TSlice (TBasic String_)) key
  = Some (Data (Store.FromEnvFields ["foo"; "bar"]))
  /\ rawVal' o = fst (Decode (TagName e) (viper (final o)) (environ (final o))
                        (seen Decode e rawVal w))
  /\ result o = snd (Decode (TagName e) (viper (final o)) (environ (final o))
                       (seen Decode e rawVal w)).
Proof.
  intros key name Hsrc U A Hb Ha Hp Hk Hv Hs1 Hs2 Hf H1 H2.
  split; [|exact (Unmarshal_decodes json_Unmarshal Decode e rawVal w o Hsrc U)].
  destruct (Unmarshal_final json_Unmarshal Decode e rawVal w o _ Hsrc U A) as [Ev Ee].
  set (acts := (before ++ ASlice (VSlice (TBasic String_) elems) prev :: after)%list) in *.
  set (w0 := prepared w) in *.
  set (w1 := run json_Unmarshal before w0).
  set (w2 := bindSlice json_Unmarshal (VSlice (TBasic String_) elems) prev w1).
  set (P := fun s : string => Strings.HasPrefix s (name ++ "_")) in *.
  assert (R : run json_Unmarshal acts w0 = run json_Unmarshal after w2).
  { unfold acts. now rewrite run_app, run_cons. }
  assert (S1 : sameSettings (viper w0) (viper w1)) by apply run_settings.
  assert (S2 : sameSettings (viper w0) (viper w2)).
  { eapply sameSettings_trans; [exact S1|].
    apply (run1_settings json_Unmarshal w1 (ASlice (VSlice (TBasic String_) elems) prev)). }
  assert (N1 : sliceKey (Store.BindEnv (viper w1) key) key = name).
  { unfold name. rewrite (sliceKey_settings _ _ key (BindEnv_settings (viper w1) key)).
    now apply sliceKey_settings. }
  assert (F1 : List.filter P (Os.Environ (environ w1))
               = List.filter P (Os.Environ (environ w))).
  { exact (run_filter_kept json_Unmarshal P before w0 Hb). }
  assert (In1 : forall entry,
             In entry (List.filter P (Os.Environ (environ w))) -> P entry = true).
  { intros entry Hin. apply filter_In in Hin. apply Hin. }
  assert (Keep : forall suffix val,
             In ((name ++ "_" ++ suffix) ++ "=" ++ val)
                (List.filter P (Os.Environ (environ w))) ->
             Os.LookupEnv (environ w1) (name ++ "_" ++ suffix)
             = Os.LookupEnv (environ w) (name ++ "_" ++ suffix)).
  { intros suffix val Hin.
    apply (run_lookup json_Unmarshal before w0 (name ++ "_" ++ suffix)).
    intros a Hina [Hs Hw]. pose proof (Hb a Hina Hs val) as Hno.
    fold w0 in Hno. rewrite Hw in Hno.
    pose proof (In1 _ Hin) as Hyes. unfold P in Hyes. cbv beta in Hyes.
    rewrite Hyes in Hno. discriminate. }
  assert (L1 : Os.LookupEnv (environ w1) (name ++ "_" ++ first) = Some "foo").
  { rewrite (Keep first "foo"); [exact H1 | rewrite Hf; now left]. }
  assert (L2 : Os.LookupEnv (environ w1) (name ++ "_" ++ second) = Some "bar").
  { rewrite (Keep second "bar"); [exact H2 | rewrite Hf; right; now left]. }
  assert (Hfree : forall suffix, Strings.free_of "="%char (name ++ suffix)
                                 = Strings.free_of "="%char suffix).
  { intros suffix. rewrite free_of_app. now rewrite (proj2 Hv). }
  assert (E2 : environ w2 = Os.set (environ w1) name "foo bar").
  { unfold w2, bindSlice. fold key. cbv zeta. rewrite N1. cbn [environ supportedCast].
    rewrite (Setenv_valid _ _ _ Hv). f_equal.
    unfold matching. fold P. rewrite F1, Hf. cbn [List.map].
    rewrite !before_eq_entry by (rewrite Hfree; simpl; assumption).
    unfold Os.Getenv. now rewrite L1, L2. }
  assert (L : Os.LookupEnv (environ (run json_Unmarshal acts w0)) name = Some "foo bar").
  { rewrite R, (run_lookup json_Unmarshal after w2 name).
    - rewrite E2. apply LookupEnv_set_same.
    - intros a Hina [Hs Hw]. apply (Ha a Hina Hs).
      rewrite <- Hw. symmetry. now apply sliceKey_settings. }
  assert (B : boundName (viper w0) key = name).
  { unfold boundName, name. apply envName_sliceKey; [reflexivity|].
    unfold dotFree. change (envPrefix (viper w0)) with
      (envPrefix (fst (Store.ReadInConfig (viper w)))).
    unfold Store.ReadInConfig. destruct (configSource (viper w)); simpl; now rewrite Hp. }
  assert (D : assoc (defaults (viper (run json_Unmarshal acts w0))) key
              = Some (VSlice (TBasic String_) elems)).
  { rewrite R, run_defaults.
    - apply bindSlice_default.
    - intros a Hina Hs Hkey. apply (Ha a Hina Hs). now rewrite Hkey. }
  assert (F : Store.find (viper (final o)) (environ (final o)) key
              = Some (Store.FromEnv "foo bar")).
  { rewrite Ev, Ee, bound_read; [now rewrite B, L | | exact Hk].
    unfold acts. rewrite map_app. apply in_or_app. right. left. reflexivity. }
  unfold decoded, Store.Get. rewrite F, Ev, D. reflexivity.
Qed.

End SequenceMergeAmong.

Lemma sequence_merge_witness :
  exists o,
    Unmarshal Demo.json_Unmarshal Demo.Decode New Demo.listAmong
      (Demo.start (Demo.store SourceAbsent "") Demo.listEnv) = Some o
    /\ decoded Demo.json_UnmarshalInto (final o) (TSlice (TBasic String_)) "List"
       = Some (Data (Store.FromEnvFields ["foo"; "bar"])).
Proof.
  eexists. split; [reflexivity|].
  eapply (fun H1 H2 H3 H4 H5 H6 H7 H8 H9 H10 H11 H12 H13 =>
            proj1 (sequence_merge Demo.json_Unmarshal Demo.json_UnmarshalInto Demo.Decode
                     New Demo.listAmong
                     (Demo.start (Demo.store SourceAbsent "") Demo.listEnv)
                     _ [ASlice (VSlice (TBasic Bool) []) ["Other"]]
                     [ASlice (VSlice (TBasic Int) []) ["More"]] [] ["List"] "1" "2"
                     H1 H2 H3 H4 H5 H6 H7 H8 H9 H10 H11 H12 H13)).
  - intros msg. discriminate.
  - reflexivity.
  - reflexivity.
  - intros a [<- | []] _ val. reflexivity.
  - intros a [<- | []] _. discriminate.
  - reflexivity.
  - discriminate.
  - split; [discriminate | reflexivity].
  - reflexivity.
  - reflexivity.
  - reflexivity.
  - reflexivity.
  - reflexivity.
Defined.

(** C6, as the specification words it, fails when another sequence of the
    walk writes a variable that starts with [KEY_]: [A_1=foo] and [A_2=bar]
    are the only variables that start with [A_], yet the binding of [A_B],
    which comes first, writes [A_B], and the scan for [A] collects it as a
    third element. *)
Lemma sequence_merge_collects_written :
  List.filter (fun s => Strings.HasPrefix s "A_") (Os.Environ Demo.shadowedEnv)
  = ["A_1=foo"; "A_2=bar"]
  /\ option_map
       (fun o => decoded Demo.json_UnmarshalInto (final o) (TSlice (TBasic String_)) "A")
       (Unmarshal Demo.json_Unmarshal Demo.Decode New Demo.shadowed
          (Demo.start (Demo.store SourceAbsent "") Demo.shadowedEnv))
     = Some (Some (Data (Store.FromEnvFields ["foo"; "bar"; "[]"]))).
Proof. split; reflexivity. Qed.

Section EmptyPointerField.

Variable json_Unmarshal : string -> option data.
Variable Decode : string -> Viper -> Os.environ -> value -> value * option error.
Variable tag : string.

Lemma call_of_interface k y x p :
  interfaceOf y = Some x -> callActions k y p = enterActions k x p.
Proof.
  destruct y as [| | | | | |[d|]]; simpl; intros H;
    try discriminate; injection H as <-; reflexivity.
Qed.

Lemma actions_pointee in_ v prev :
  pointee in_ = Some v -> actions tag in_ prev = actionsKind tag v in_ prev.
Proof.
  destruct in_ as [| | | | |t [ifv|]|]; simpl; intros H;
    try discriminate; injection H as <-; reflexivity.
Qed.

(** The bindings of a field the walk goes into are those of the call it
    makes for it. *)
Lemma field_actions_reached name tg exported f0 x prev path :
  fieldArgument exported f0 = Some x ->
  fieldPath (tagAction (assoc tg tag) name) prev = Some path ->
  fieldActions tag name tg
    (match f0 with VPtr _ None => true | _ => exported end)
    (match f0 with
     | VPtr pt None => actionsZero tag pt
     | VPtr _ (Some y) => callActions (actionsKind tag) y
     | _ => callActions (actionsKind tag) f0
     end) prev
  = actions tag x path.
Proof.
  intros Hx Hp. unfold fieldActions.
  assert (C : (match f0 with VPtr _ None => true | _ => exported end) = true
              /\ forall p, (match f0 with
                            | VPtr pt None => actionsZero tag pt
                            | VPtr _ (Some y) => callActions (actionsKind tag) y
                            | _ => callActions (actionsKind tag) f0
                            end) p = actions tag x p).
  { unfold fieldArgument in Hx.
    destruct f0 as [| | | | |pt [y|]|]; try destruct exported; try discriminate;
      try (split; [reflexivity | intros p; now apply call_of_interface]).
    all: injection Hx as <-; split; [reflexivity | intros p; apply actionsZero_zero]. }
  destruct C as [-> C].
  destruct (tagAction (assoc tg tag) name); simpl in Hp; try discriminate;
    injection Hp as <-; apply C.
Qed.

Lemma map_actions_cons k e key v es in_ prev :
  actionsKind tag (VMap k e ((KString key, v) :: es)) in_ prev
  = andThen (callActions (actionsKind tag) v (prev ++ [key])%list)
      (actionsKind tag (VMap k e es) in_ prev).
Proof. reflexivity. Qed.

(** The bindings of a call the walk makes are among the bindings of the
    walk. *)
Lemma reaches_incl root p0 x path :
  reaches tag root p0 x path ->
  forall acts, actions tag root p0 = Some acts ->
  exists sub, actions tag x path = Some sub /\ incl sub acts.
Proof.
  induction 1 as [| in_ prev fs name tg exported f0 x path _ IH Hp Hin Hx Hpath
                  | in_ prev k e es key v x _ IH Hp Hin Hx]; intros acts A.
  - exists acts. split; [exact A | apply incl_refl].
  - destruct (IH acts A) as (s1 & A1 & I1).
    rewrite (actions_pointee in_ _ prev Hp) in A1.
    destruct (in_split _ _ Hin) as (l1 & l2 & ->).
    rewrite struct_actions_app, struct_actions_cons in A1.
    apply andThen_Some in A1. destruct A1 as (a1 & a2 & _ & A2 & ->).
    apply andThen_Some in A2. destruct A2 as (sf & a3 & Af & _ & ->).
    rewrite (field_actions_reached name tg exported f0 x prev path Hx Hpath) in Af.
    exists sf. split; [exact Af|].
    intros b Hb. apply I1. apply in_or_app. right. apply in_or_app. now left.
  - destruct (IH acts A) as (s1 & A1 & I1).
    rewrite (actions_pointee in_ _ prev Hp) in A1.
    destruct (in_split _ _ Hin) as (l1 & l2 & ->).
    rewrite map_actions_app, map_actions_cons in A1.
    apply andThen_Some in A1. destruct A1 as (a1 & a2 & _ & A2 & ->).
    apply andThen_Some in A2. destruct A2 as (sf & a3 & Af & _ & ->).
    rewrite (call_of_interface _ v x _ Hx) in Af.
    exists sf. split; [exact Af|].
    intros b Hb. apply I1. apply in_or_app. right. apply in_or_app. now left.
Qed.

End EmptyPointerField.

Section EmptyPointerFieldRead.

Variable json_Unmarshal : string -> option data.
Variable Decode : string -> Viper -> Os.environ -> value -> value * option error.

(** C9, as the code has it.  Anywhere in the target the first decode left,
    a struct the walk reaches has a pointer field that is empty (the base
    source holds nothing for it) and that its tag does not skip.  The walk
    goes on under the field as it does on the zero value of the type pointed
    to, exported field or not; every binding of that subtree is a binding
    of the walk; and for one of them whose variable is set in the process
    environment, and is not the variable a sequence binding of the walk
    writes, the second run of the structure decoder, whose outcome
    [Unmarshal] returns, reads the value of the variable for the key. *)
Theorem empty_pointer_field_is_walked (e : Enviper) (rawVal : value) (w : world)
    (o : outcome) (acts sub : list action) (container : value) (prev : list string)
    (fs : list (string * StructTag * bool * value))
    (name : string) (tg : StructTag) (exported : bool) (pt : gotype)
    (path : list string) (a : action) (s : string) :
  let key := keyOf a in
  (forall msg, configSource (viper w) <> SourceBroken msg) ->
  Unmarshal json_Unmarshal Decode e rawVal w = Some o ->
  actions (TagName e) (seen Decode e rawVal w) [] = Some acts ->
  reaches (TagName e) (seen Decode e rawVal w) [] container prev ->
  pointee container = Some (VStruct fs) ->
  In (name, tg, exported, VPtr pt None) fs ->
  fieldPath (tagAction (assoc tg (TagName e)) name) prev = Some path ->
  actions (TagName e) (zero pt) path = Some sub ->
  In a sub -> key <> "" ->
  (forall b, In b acts -> isSlice b = true ->
     sliceKey (viper (prepared w)) (keyOf b) <> boundName (viper (prepared w)) key) ->
  Os.LookupEnv (environ w) (boundName (viper (prepared w)) key) = Some s ->
  bindEnvsZero json_Unmarshal (TagName e) pt path (prepared w)
  = bindEnvs json_Unmarshal (TagName e) (zero pt) path (prepared w)
  /\ In a acts
  /\ Store.find (viper (final o)) (environ (final o)) key = Some (Store.FromEnv s)
  /\ rawVal' o = fst (Decode (TagName e) (viper (final o)) (environ (final o))
                        (seen Decode e rawVal w))
  /\ result o = snd (Decode (TagName e) (viper (final o)) (environ (final o))
                       (seen Decode e rawVal w)).
Proof.
  intros key Hsrc U A Hreach Hp Hfield Hpath Hsub Ha Hne Hw Hset.
  assert (Hin : In a acts).
  { assert (Hz : reaches (TagName e) (seen Decode e rawVal w) [] (zero pt) path).
    { exact (reaches_field _ _ _ container prev fs name tg exported (VPtr pt None)
               (zero pt) path Hreach Hp Hfield eq_refl Hpath). }
    destruct (reaches_incl (TagName e) _ _ _ _ Hz acts A) as (sub' & Hsub' & Hincl).
    rewrite Hsub in Hsub'. injection Hsub' as <-. now apply Hincl. }
  split; [apply bindEnvsZero_zero | split; [exact Hin|]].
  split; [|exact (Unmarshal_decodes json_Unmarshal Decode e rawVal w o Hsrc U)].
  assert (Hk : In key (List.map keyOf acts)) by now apply in_map.
  rewrite (final_read json_Unmarshal Decode e rawVal w o acts key Hsrc U A Hk Hne).
  rewrite (final_lookup json_Unmarshal Decode e rawVal w o acts _ Hsrc U A Hw).
  now rewrite Hset.
Qed.

End EmptyPointerFieldRead.

Lemma empty_pointer_field_is_walked_witness :
  exists o,
    Unmarshal Demo.json_Unmarshal Demo.Decode New Demo.nestedDb
      (Demo.start (Demo.store SourceAbsent "") Demo.nestedDbEnv) = Some o
    /\ Store.find (viper (final o)) (environ (final o)) "Server.Db.Host"
       = Some (Store.FromEnv "example.org").
Proof.
  eexists. split; [reflexivity|].
  eapply (fun H1 H2 H3 H4 H5 H6 H7 H8 H9 H10 H11 H12 =>
            proj1 (proj2 (proj2 (empty_pointer_field_is_walked
              Demo.json_Unmarshal Demo.Decode New Demo.nestedDb
              (Demo.start (Demo.store SourceAbsent "") Demo.nestedDbEnv)
              _ [ADefault ["Server"; "Db"; "Host"]] [ADefault ["Server"; "Db"; "Host"]]
              (VStruct [("Db", [], true,
                         VPtr (TStruct [("Host", [], true, TBasic String_)]) None)])
              ["Server"]
              [("Db", [], true, VPtr (TStruct [("Host", [], true, TBasic String_)]) None)]
              "Db" [] true (TStruct [("Host", [], true, TBasic String_)])
              ["Server"; "Db"] (ADefault ["Server"; "Db"; "Host"]) "example.org"
              H1 H2 H3 H4 H5 H6 H7 H8 H9 H10 H11 H12)))).
  - intros msg. discriminate.
  - reflexivity.
  - reflexivity.
  - eapply (reaches_field "mapstructure" Demo.nestedDb [] Demo.nestedDb [] _
              "Server" [] true _ _ ["Server"] (reaches_root _ _ _) eq_refl).
    + left. reflexivity.
    + reflexivity.
    + reflexivity.
  - reflexivity.
  - left. reflexivity.
  - reflexivity.
  - reflexivity.
  - left. reflexivity.
  - discriminate.
  - intros b [<- | []]. discriminate.
  - reflexivity.
Defined.

(** C9, as the specification words it, fails when a sequence of the walk
    is bound to the variable of the leaf: [Db] is empty, [DB_HOST] targets
    its leaf [Host], yet the binding of the sequence [Db_Host] writes the
    empty join over [DB_HOST], and that is what the final read of
    [Db.Host] yields. *)
Lemma empty_pointer_leaf_overwritten :
  Os.LookupEnv Demo.dbEnv (boundName (Demo.storeRead "") "Db.Host") = Some "example.org"
  /\ option_map (fun o => Store.find (viper (final o)) (environ (final o)) "Db.Host")
       (Unmarshal Demo.json_Unmarshal Demo.Decode New Demo.dbShadowed
          (Demo.start (Demo.store SourceAbsent "") Demo.dbEnv))
     = Some (Some (Store.FromEnv ""))
  /\ option_map (fun o => Os.LookupEnv (environ (final o)) "DB_HOST")
       (Unmarshal Demo.json_Unmarshal Demo.Decode New Demo.dbShadowed
          (Demo.start (Demo.store SourceAbsent "") Demo.dbEnv))
     = Some (Some "").
Proof. repeat split. Qed.
